(** * FarcasterInteractionManager: a shallow embedding of
    [packages/client-farcaster/src/interactions.ts]

    The manager polls the feed, aggregates candidate casts, passes them
    through the durable dedup gate and drives one reply per candidate.

    The embedding is a state-and-exception monad over a [World] that holds
    what the class mutates (the memory store behind
    [runtime.messageManager], [lastProcessedCasts], the pending timer,
    [client.lastInteractionTimestamp]) together with the trace of every call
    that leaves the class.  The collaborators (feed client, generation
    service, runtime) are the fields of an [Env]; each of them answers from
    the trace so far, so that two calls with the same arguments may answer
    differently, and each may throw. *)

From stdpp Require Import base gmap strings list pretty.
From Stdlib Require Import ZArith Lia.

Open Scope string_scope.
Open Scope list_scope.
Open Scope Z_scope.

(** ** Data model *)

Definition UUID := string.

(** [Date]: the instant in milliseconds, [None] for an invalid date (whose
    [getTime()] is NaN). *)
Definition Date := option Z.

Record Profile := mkProfile {
  fid : Z;
  name : string;
  username : string
}.

Record CastId := mkCastId {
  cid_hash : string;
  cid_fid : Z
}.

(** [Cast] of [./types], with the fields this file reads. *)
Record Cast := mkCast {
  hash : string;
  authorFid : Z;
  text : string;
  profile : Profile;
  inReplyTo : option CastId;
  timestamp : Date
}.

(** A cast as the Neynar API returns it from [fetchCastsForUser].  The
    [timestamp] string is kept as the instant it parses to. *)
Record NeynarCast := mkNeynarCast {
  n_hash : string;
  n_author_fid : Z;
  n_text : string;
  n_parent_hash : option string;
  n_parent_author_fid : Z;
  n_timestamp : Date
}.

(** [Content] of the core: the fields the orchestration touches.  [c_cast]
    is the extra key that [handleCast] adds before it hands the message to
    the action pipeline. *)
Record Content := mkContent {
  c_text : string;
  c_inReplyTo : option UUID;
  c_action : option string;
  c_cast : option Cast
}.

Record Memory := mkMemory {
  m_id : option UUID;
  m_userId : UUID;
  m_agentId : UUID;
  m_roomId : UUID;
  m_content : Content
}.

(** One element of what [sendCast] resolves to. *)
Record SendResult := mkSendResult {
  r_memory : Memory;
  r_cast : Cast
}.

Record SendArgs := mkSendArgs {
  sa_signerUuid : string;
  sa_profile : Profile;
  sa_content : Content;
  sa_roomId : UUID;
  sa_inReplyTo : CastId
}.

(** The state object [runtime.composeState] builds: the message and the
    four additional keys. *)
Record State := mkState {
  st_message : Memory;
  st_farcasterUsername : string;
  st_timeline : string;
  st_currentPost : string;
  st_formattedConversation : string
}.

Record Templates := mkTemplates {
  farcasterShouldRespondTemplate : option string;
  shouldRespondTemplate : option string;
  farcasterMessageHandlerTemplate : option string;
  messageHandlerTemplate : option string
}.

Record FarcasterConfig := mkConfig {
  FARCASTER_FID : option Z;
  FARCASTER_POLL_INTERVAL : option Z;
  FARCASTER_DRY_RUN : bool;
  FARCASTER_TARGET_USERS : list string
}.

(** What [this] holds and never reassigns. *)
Record Manager := mkManager {
  farcasterConfig : option FarcasterConfig;
  agentId : UUID;
  signerUuid : string;
  templates : option Templates
}.

(** ** Exceptions, log lines and the trace of outgoing calls *)

Inductive Exn :=
| TypeError (msg : string)
| RangeError (msg : string)
| Failure (msg : string).

(** One constructor per [elizaLogger] call of the file, with its
    arguments. *)
Inductive LogEntry :=
| LogChecking
| LogNoFid
| LogProcessingTargets (users : list string)
| LogUserNotFound (user : string)
| LogCastChecks (h : string) (isUnprocessed isRecent isReply : bool)
| LogFoundValid (n : nat) (user firstCast : string) (isRecent : Z)
    (isUnprocessed : bool)
| LogNoValid (user : string)
| LogFetchError (user : string) (e : Exn)
| LogSelected (user txt : string)
| LogUpdatedTimestamp (t : Z)
| LogSkipSelf (h : string)
| LogSkipNoText (h : string)
| LogDryRun (h txt : string)
| LogSendError (e : Exn)
| LogCycleError (e : Exn).

Inductive Event :=
| ELog (l : LogEntry)
| EDateNow
| EMathRandom
| EGetMentions (agentFid pageSize : Z)
| ELookupUserByUsername (user : string) (viewerFid : Z)
| EFetchCastsForUser (userFid viewerFid limit : Z) (includeReplies : bool)
| EGetProfile (userFid : Z)
| EGetTimeline (agentFid pageSize : Z)
| EGetMemoryById (id : UUID)
| ECreateMemory (m : Memory)
| EEnsureConnection (userId roomId : UUID) (user nm source : string)
| EBuildConversationThread (c : Cast)
| EComposeState (m : Memory) (farcasterUsername timeline currentPost
    formattedConversation : string)
| EGenerateShouldRespond (context : string)
| EGenerateMessageResponse (context : string)
| ESendCast (a : SendArgs)
| EUpdateRecentMessageState (s : State)
| EProcessActions (m : Memory) (responses : list Memory) (s : State)
| ESetTimeout (ms : Z).

(** The trace is kept newest first. *)
Definition Trace := list Event.

(** ** The world the manager mutates *)

Record World := mkWorld {
  store : list Memory;
  lastProcessedCasts : gset string;
  lastInteractionTimestamp : option Z;
  timeout : option Z;
  trace : Trace
}.

Definition set_store (f : list Memory -> list Memory) (w : World) : World :=
  mkWorld (f (store w)) (lastProcessedCasts w) (lastInteractionTimestamp w)
    (timeout w) (trace w).

Definition set_lastProcessedCasts (f : gset string -> gset string)
    (w : World) : World :=
  mkWorld (store w) (f (lastProcessedCasts w)) (lastInteractionTimestamp w)
    (timeout w) (trace w).

Definition set_lastInteractionTimestamp (t : option Z) (w : World) : World :=
  mkWorld (store w) (lastProcessedCasts w) t (timeout w) (trace w).

Definition set_timeout (t : option Z) (w : World) : World :=
  mkWorld (store w) (lastProcessedCasts w) (lastInteractionTimestamp w) t
    (trace w).

Definition record_event (ev : Event) (w : World) : World :=
  mkWorld (store w) (lastProcessedCasts w) (lastInteractionTimestamp w)
    (timeout w) (ev :: trace w).

(** ** The monad: state over [World], with exceptions that keep the state *)

Inductive Res (A : Type) :=
| Ok (a : A)
| Throw (e : Exn).
Arguments Ok {A} a.
Arguments Throw {A} e.

Definition M (A : Type) := World -> Res A * World.

Definition ret {A} (a : A) : M A := fun w => (Ok a, w).

Definition bind {A B} (m : M A) (k : A -> M B) : M B :=
  fun w =>
    match m w with
    | (Ok a, w') => k a w'
    | (Throw e, w') => (Throw e, w')
    end.

Definition throw {A} (e : Exn) : M A := fun w => (Throw e, w).

(** [try { m } catch (error) { h error }] *)
Definition try_catch {A} (m : M A) (h : Exn -> M A) : M A :=
  fun w =>
    match m w with
    | (Ok a, w') => (Ok a, w')
    | (Throw e, w') => h e w'
    end.

Definition gets {A} (f : World -> A) : M A := fun w => (Ok (f w), w).

Definition modify (f : World -> World) : M unit := fun w => (Ok tt, f w).

Definition emit (ev : Event) : M unit := modify (record_event ev).

(** A call that leaves the class: the collaborator answers from the trace
    so far, and the call is recorded. *)
Definition call {A} (ev : Event) (answer : Trace -> Res A) : M A :=
  fun w => (answer (trace w), record_event ev w).

Declare Scope m_scope.
Delimit Scope m_scope with m.
Notation "x <- c1 ;; c2" := (bind c1 (fun x => c2))
  (at level 100, c1 at next level, right associativity) : m_scope.
Notation "c1 ;; c2" := (bind c1 (fun _ => c2))
  (at level 100, right associativity) : m_scope.
Open Scope m_scope.

(** [for (const x of xs) { body x }] *)
Fixpoint for_of {A} (xs : list A) (body : A -> M unit) : M unit :=
  match xs with
  | [] => ret tt
  | x :: xs' => body x ;; for_of xs' body
  end.

(** A loop that threads an accumulator the body may replace. *)
Fixpoint for_of_acc {A S} (xs : list A) (body : A -> S -> M S) (acc : S)
    : M S :=
  match xs with
  | [] => ret acc
  | x :: xs' => acc' <- body x acc ;; for_of_acc xs' body acc'
  end.

(** [xs.filter(p)] with a callback that has effects. *)
Fixpoint filter_m {A} (p : A -> M bool) (xs : list A) : M (list A) :=
  match xs with
  | [] => ret []
  | x :: xs' =>
      b <- p x ;;
      rest <- filter_m p xs' ;;
      ret (if b then x :: rest else rest)
  end.

Fixpoint map_m {A B} (f : A -> M B) (xs : list A) : M (list B) :=
  match xs with
  | [] => ret []
  | x :: xs' =>
      y <- f x ;;
      rest <- map_m f xs' ;;
      ret (y :: rest)
  end.

(** ** The collaborators *)

Record Env := mkEnv {
  (* pure helpers: core, viem, ./utils, ./prompts *)
  stringToUuid : string -> UUID;
  toHex : string -> string;
  castUuid : UUID -> string -> UUID;
  formatCast : Cast -> string;
  formatTimeline : list Cast -> string;
  toLocaleString : Date -> string;
  composeContext : State -> string -> string;
  default_shouldRespondTemplate : string;
  default_messageHandlerTemplate : string;
  (* clock and random source; [Math.random()] is the fraction num/den *)
  date_now : Trace -> Z;
  math_random : Trace -> Z * Z;
  (* feed client *)
  getMentions : Z -> Z -> Trace -> Res (list Cast);
  lookupUserByUsername : string -> Z -> Trace -> Res (option Z);
  fetchCastsForUser : Z -> Z -> Z -> bool -> Trace -> Res (list NeynarCast);
  getProfile : Z -> Trace -> Res Profile;
  getTimeline : Z -> Z -> Trace -> Res (list Cast);
  sendCast : SendArgs -> Trace -> Res (list SendResult);
  (* runtime and generation service *)
  ensureConnection : UUID -> UUID -> string -> string -> string -> Trace ->
    Res unit;
  buildConversationThread : Cast -> Trace -> Res (list Cast);
  composeState : Memory -> string -> string -> string -> string -> Trace ->
    Res State;
  generateShouldRespond : string -> Trace -> Res (option string);
  generateMessageResponse : string -> Trace -> Res Content;
  updateRecentMessageState : State -> Trace -> Res State;
  (* the action pipeline: the contents it passes back to the callback it
     was given, in order, and how the call then settles *)
  processActions : Memory -> list Memory -> State -> Trace ->
    list Content * Res unit
}.

(** ** JavaScript helpers *)

(** Truthiness of a string: every string but the empty one. *)
Definition truthy (s : string) : bool := negb (String.eqb s "").

Definition truthy_opt (o : option string) : bool :=
  match o with
  | Some s => truthy s
  | None => false
  end.

(** [a || b] on optional strings: the first truthy one. *)
Definition or_else (a : option string) (b : option string) : option string :=
  if truthy_opt a then a else b.

(** [a ?? b]: the first one that is not undefined. *)
Definition nullish {A} (a : option A) (b : A) : A :=
  match a with
  | Some x => x
  | None => b
  end.

(** [xs[i]] for a number [i] that is an integer. *)
Definition js_index {A} (xs : list A) (i : Z) : option A :=
  if i <? 0 then None else xs !! Z.to_nat i.

(** [s.substring(0, n)], used for the text of two log lines only.  The cut
    is made on the bytes held by the model; on a text of one-byte
    characters it is the cut the code makes. *)
Definition substring0 (n : nat) (s : string) : string := String.substring 0 n s.

(** Strings are held as their UTF-8 bytes, while [s.length] counts UTF-16
    code units.  A byte that starts a sequence of one, two or three bytes
    stands for one unit, a byte that starts a four-byte sequence for the
    two units of a surrogate pair, a continuation byte for none. *)
Definition utf16_units (c : Ascii.ascii) : nat :=
  let b := Ascii.nat_of_ascii c in
  if (b <? 128)%nat then 1%nat
  else if (b <? 192)%nat then 0%nat
  else if (b <? 240)%nat then 1%nat
  else 2%nat.

(** [s.length] *)
Fixpoint js_length (s : string) : nat :=
  match s with
  | EmptyString => 0%nat
  | String c rest => (utf16_units c + js_length rest)%nat
  end.

(** A JavaScript [Map] with string keys: insertion order is iteration
    order, and [set] on a present key replaces the value in place. *)
Definition JsMap (V : Type) := list (string * V).

Fixpoint map_set {V} (k : string) (v : V) (m : JsMap V) : JsMap V :=
  match m with
  | [] => [(k, v)]
  | (k', v') :: m' =>
      if String.eqb k' k then (k', v) :: m' else (k', v') :: map_set k v m'
  end.

(** ** The memory store *)

(** Modelled from the spec: [runtime.messageManager] is the memory store,
    which lives in the core runtime; its contract is read-by-id and
    write-append, [getById(id) -> MemoryRecord?] and
    [create(record) -> void]. *)
Definition store_lookup (id : UUID) (ms : list Memory) : option Memory :=
  List.find (fun m => bool_decide (m_id m = Some id)) ms.

Definition getMemoryById (id : UUID) : M (option Memory) :=
  emit (EGetMemoryById id) ;;
  gets (fun w => store_lookup id (store w)).

Definition createMemory (m : Memory) : M unit :=
  emit (ECreateMemory m) ;;
  modify (set_store (fun ms => ms ++ [m])).

Definition log (l : LogEntry) : M unit := emit (ELog l).

(** ** The manager *)

Section Manager.

Variable E : Env.
Variable self : Manager.

(** Modelled from the spec: [createCastMemory] of [./memory] builds the
    inbound record of a cast, keyed by the deterministic id of
    (agentId, post id) and holding roomId, userId, agentId and the content
    text. *)
Definition createCastMemory (roomId senderId : UUID) (cast : Cast) : Memory :=
  {| m_id := Some (castUuid E (agentId self) (hash cast));
     m_userId := senderId;
     m_agentId := agentId self;
     m_roomId := roomId;
     m_content :=
       {| c_text := text cast;
          c_inReplyTo :=
            match inReplyTo cast with
            | Some parent => Some (castUuid E (agentId self) (cid_hash parent))
            | None => None
            end;
          c_action := None;
          c_cast := None |} |}.

Definition dateNow : M Z := call EDateNow (fun tr => Ok (date_now E tr)).

Definition mathRandom : M (Z * Z) :=
  call EMathRandom (fun tr => Ok (math_random E tr)).

Definition client_getProfile (f : Z) : M Profile :=
  call (EGetProfile f) (getProfile E f).

(** *** Aggregation: lines 68-173 of [handleInteractions] *)

Definition day_ms : Z := 24 * 60 * 60 * 1000.

(** The test of the filter callback, lines 108-123, on the values it
    reads. *)
Definition cast_is_valid (processed : gset string) (now : Z)
    (cast : NeynarCast) : bool :=
  let isUnprocessed := negb (bool_decide (n_hash cast ∈ processed)) in
  let isRecent :=
    match n_timestamp cast with
    | Some t => now - t <? day_ms
    | None => false
    end in
  isUnprocessed && isRecent && (10 <? js_length (n_text cast))%nat.

Definition cast_checks_log (processed : gset string) (now : Z)
    (cast : NeynarCast) : LogEntry :=
  LogCastChecks (n_hash cast)
    (negb (bool_decide (n_hash cast ∈ processed)))
    match n_timestamp cast with
    | Some t => now - t <? day_ms
    | None => false
    end
    (bool_decide (n_parent_hash cast ≠ None)).

(** The filter callback itself, lines 106-124. *)
Definition filter_callback (cast : NeynarCast) : M bool :=
  processed <- gets lastProcessedCasts ;;
  now <- dateNow ;;
  log (cast_checks_log processed now cast) ;;
  ret (cast_is_valid processed now cast).

(** Lines 131-141: the [Cast] pushed to [processedCasts]. *)
Definition to_cast (cast : NeynarCast) (p : Profile) : Cast :=
  {| hash := n_hash cast;
     authorFid := n_author_fid cast;
     text := n_text cast;
     profile := p;
     inReplyTo :=
       if truthy_opt (n_parent_hash cast)
       then Some (mkCastId (nullish (n_parent_hash cast) "")
                    (n_parent_author_fid cast))
       else None;
     timestamp := n_timestamp cast |}.

(** Lines 88-142 for one target user: lookup, fetch, filter, and the
    conversion of the surviving casts.  [None] when the user is not found
    (the [continue] of line 95). *)
Definition user_casts (agentFid : Z) (user : string)
    : M (option (list NeynarCast * list Cast)) :=
  userInfo <- call (ELookupUserByUsername user agentFid)
                (lookupUserByUsername E user agentFid) ;;
  match userInfo with
  | None => log (LogUserNotFound user) ;; ret None
  | Some userFid =>
      userCasts <- call (EFetchCastsForUser userFid agentFid 10 false)
                     (fetchCastsForUser E userFid agentFid 10 false) ;;
      validCasts <- filter_m filter_callback userCasts ;;
      processedCasts <-
        map_m (fun cast =>
                 p <- client_getProfile (n_author_fid cast) ;;
                 ret (to_cast cast p))
          validCasts ;;
      ret (Some (validCasts, processedCasts))
  end.

(** Lines 144-153.  The map is updated before the "Found ..." line is
    built, so a throw from building that line reaches the [catch] of line
    154 with the entry already set; the two inner [LogFetchError] branches
    are that path. *)
Definition record_user_casts (user : string) (validCasts : list NeynarCast)
    (processedCasts : list Cast) (castsByUser : JsMap (list Cast))
    : M (JsMap (list Cast)) :=
  if (0 <? length processedCasts)%nat then
    let castsByUser' := map_set user processedCasts castsByUser in
    seen <- gets lastInteractionTimestamp ;;
    match validCasts with
    | first :: _ =>
        match n_timestamp first with
        | Some iso =>
            log (LogFoundValid (length processedCasts) user
                   (substring0 100 (n_text first)) iso
                   (negb (bool_decide (is_Some seen)))) ;;
            ret castsByUser'
        | None =>
            log (LogFetchError user (RangeError "Invalid time value")) ;;
            ret castsByUser'
        end
    | [] =>
        log (LogFetchError user (TypeError "validCasts[0] is undefined")) ;;
        ret castsByUser'
    end
  else
    log (LogNoValid user) ;; ret castsByUser.

(** The [try]/[catch] around one target user, lines 87-157. *)
Definition fetch_user (agentFid : Z) (user : string)
    (castsByUser : JsMap (list Cast)) : M (JsMap (list Cast)) :=
  try_catch
    (found <- user_casts agentFid user ;;
     match found with
     | None => ret castsByUser
     | Some (validCasts, processedCasts) =>
         record_user_casts user validCasts processedCasts castsByUser
     end)
    (fun error => log (LogFetchError user error) ;; ret castsByUser).

(** Lines 162-168: one pick for one entry of [castsByUser]. *)
Definition select_one (entry : string * list Cast)
    (selectedCasts : list Cast) : M (list Cast) :=
  let '(user, casts) := entry in
  if (0 <? length casts)%nat then
    r <- mathRandom ;;
    let idx := (fst r * Z.of_nat (length casts)) `div` snd r in
    match js_index casts idx with
    | Some randomCast =>
        log (LogSelected user (substring0 100 (text randomCast))) ;;
        ret (selectedCasts ++ [randomCast])
    | None => throw (TypeError "randomCast is undefined")
    end
  else ret selectedCasts.

Definition select_casts (castsByUser : JsMap (list Cast)) : M (list Cast) :=
  for_of_acc castsByUser select_one [].

(** Lines 68-173: the candidate list. *)
Definition aggregate_candidates (cfg : FarcasterConfig) (agentFid : Z)
    : M (list Cast) :=
  mentions <- call (EGetMentions agentFid 10) (getMentions E agentFid 10) ;;
  let TARGET_USERS := FARCASTER_TARGET_USERS cfg in
  if (0 <? length TARGET_USERS)%nat then
    log (LogProcessingTargets TARGET_USERS) ;;
    castsByUser <- for_of_acc TARGET_USERS (fetch_user agentFid) [] ;;
    selectedCasts <- select_casts castsByUser ;;
    ret (mentions ++ selectedCasts)
  else ret mentions.

(** *** The dispatch callback: lines 355-390 of [handleCast] *)

Definition set_inReplyTo (id : option UUID) (c : Content) : Content :=
  mkContent (c_text c) id (c_action c) (c_cast c).

Definition set_action (a : option string) (c : Content) : Content :=
  mkContent (c_text c) (c_inReplyTo c) a (c_cast c).

(** [result.memory.content.action = a] *)
Definition set_result_action (a : option string) (r : SendResult)
    : SendResult :=
  let m := r_memory r in
  mkSendResult
    (mkMemory (m_id m) (m_userId m) (m_agentId m) (m_roomId m)
       (set_action a (m_content m)))
    (r_cast r).

Definition send_args (cast : Cast) (roomId : UUID) (content : Content)
    : SendArgs :=
  {| sa_signerUuid := signerUuid self;
     sa_profile := profile cast;
     sa_content := content;
     sa_roomId := roomId;
     sa_inReplyTo := mkCastId (hash cast) (authorFid cast) |}.

(** The content as line 360-362 leave it. *)
Definition with_reply_target (memoryId : UUID) (content : Content) : Content :=
  if truthy memoryId && negb (truthy_opt (c_inReplyTo content))
  then set_inReplyTo (Some memoryId) content
  else content.

Definition callback (cast : Cast) (roomId memoryId : UUID) (content : Content)
    : M (list Memory) :=
  try_catch
    (let content := with_reply_target memoryId content in
     results <- call (ESendCast (send_args cast roomId content))
                  (sendCast E (send_args cast roomId content)) ;;
     modify (set_lastProcessedCasts (fun s => {[hash cast]} ∪ s)) ;;
     match results with
     | [] => throw (TypeError "results[0] is undefined")
     | first :: rest =>
         let results' := set_result_action (c_action content) first :: rest in
         for_of results' (fun r => createMemory (r_memory r)) ;;
         ret (map r_memory results')
     end)
    (fun error => log (LogSendError error) ;; ret []).

(** Lines 396-401: the hand-off to the action pipeline, which was given the
    callback and may call it again. *)
Definition run_processActions (message : Memory) (responses : list Memory)
    (newState : State) (cb : Content -> M (list Memory)) : M unit :=
  out <- call (EProcessActions message responses newState)
           (fun tr => Ok (processActions E message responses newState tr)) ;;
  for_of (fst out) (fun c => cb c ;; ret tt) ;;
  match snd out with
  | Ok _ => ret tt
  | Throw e => throw e
  end.

(** *** [handleCast], lines 229-402 *)

Definition newline : string := String (Ascii.ascii_of_nat 10) "".

Definition format_thread_entry (c : Cast) : string :=
  "@" +:+ username (profile c) +:+ " (" +:+ toLocaleString E (timestamp c)
  +:+ "):" +:+ newline +:+ "                " +:+ text c.

Definition template_of (pick : Templates -> option string) : option string :=
  match templates self with
  | Some t => pick t
  | None => None
  end.

Definition dry_run : bool :=
  match farcasterConfig self with
  | Some cfg => FARCASTER_DRY_RUN cfg
  | None => false
  end.

Definition handleCast (agent : Profile) (cast : Cast) (memory : Memory)
    (thread : list Cast) : M (option Content) :=
  if fid (profile cast) =? fid agent then
    log (LogSkipSelf (hash cast)) ;;
    ret None
  else if negb (truthy (c_text (m_content memory))) then
    log (LogSkipNoText (hash cast)) ;;
    ret (Some (mkContent "" None (Some "IGNORE") None))
  else
    let currentPost := formatCast E cast in
    let senderId := stringToUuid E (pretty (authorFid cast)) in
    timeline <- call (EGetTimeline (fid agent) 10)
                  (getTimeline E (fid agent) 10) ;;
    let formattedTimeline := formatTimeline E timeline in
    let formattedConversation :=
      String.concat (newline +:+ newline) (map format_thread_entry thread) in
    state <- call (EComposeState memory (username agent) formattedTimeline
                     currentPost formattedConversation)
               (composeState E memory (username agent) formattedTimeline
                  currentPost formattedConversation) ;;
    let shouldRespondContext :=
      composeContext E state
        (nullish
           (or_else (template_of farcasterShouldRespondTemplate)
              (or_else (template_of shouldRespondTemplate)
                 (Some (default_shouldRespondTemplate E))))
           (default_shouldRespondTemplate E)) in
    let memoryId := castUuid E (agentId self) (hash cast) in
    castMemory <- getMemoryById memoryId ;;
    match castMemory with
    | None => createMemory (createCastMemory (m_roomId memory) senderId cast)
    | Some _ => ret tt
    end ;;
    shouldRespondResponse <- call (EGenerateShouldRespond shouldRespondContext)
                               (generateShouldRespond E shouldRespondContext) ;;
    let context :=
      composeContext E state
        (nullish (template_of farcasterMessageHandlerTemplate)
           (nullish (template_of messageHandlerTemplate)
              (default_messageHandlerTemplate E))) in
    generated <- call (EGenerateMessageResponse context)
                   (generateMessageResponse E context) ;;
    let responseContent := set_inReplyTo (Some memoryId) generated in
    if negb (truthy (c_text responseContent)) then ret None
    else if dry_run then
      log (LogDryRun (hash cast) (c_text responseContent)) ;;
      ret None
    else
      responseMessages <-
        callback cast (m_roomId memory) memoryId responseContent ;;
      newState <- call (EUpdateRecentMessageState state)
                    (updateRecentMessageState E state) ;;
      let message :=
        mkMemory (m_id memory) (m_userId memory) (m_agentId memory)
          (m_roomId memory)
          (mkContent (c_text (m_content memory))
             (c_inReplyTo (m_content memory)) (c_action (m_content memory))
             (Some cast)) in
      run_processActions message responseMessages newState
        (callback cast (m_roomId memory) memoryId) ;;
      ret None.

(** *** [handleInteractions], lines 59-227 *)

(** The body of the candidate loop, lines 179-222. *)
Definition process_candidate (agent : Profile) (cast : Cast) : M unit :=
  let messageHash := toHex E (hash cast) in
  let conversationId := messageHash +:+ "-" +:+ agentId self in
  let roomId := stringToUuid E conversationId in
  let userId := stringToUuid E (pretty (authorFid cast)) in
  let pastMemoryId := castUuid E (agentId self) (hash cast) in
  pastMemory <- getMemoryById pastMemoryId ;;
  match pastMemory with
  | Some _ => ret tt
  | None =>
      call (EEnsureConnection userId roomId (username (profile cast))
              (name (profile cast)) "farcaster")
        (ensureConnection E userId roomId (username (profile cast))
           (name (profile cast)) "farcaster") ;;
      thread <- call (EBuildConversationThread cast)
                  (buildConversationThread E cast) ;;
      let memory :=
        mkMemory None userId (agentId self) roomId
          (mkContent (text cast) None None None) in
      handleCast agent cast memory thread ;;
      ret tt
  end.

(** [farcasterConfig?.FARCASTER_FID ?? 0] *)
Definition agent_fid : Z :=
  match farcasterConfig self with
  | Some cfg => nullish (FARCASTER_FID cfg) 0
  | None => 0
  end.

Definition handleInteractions : M unit :=
  log LogChecking ;;
  let agentFid := agent_fid in
  if agentFid =? 0 then
    log LogNoFid ;;
    ret tt
  else
    match farcasterConfig self with
    | None => throw (TypeError "farcasterConfig is undefined")
    | Some cfg =>
        castsCandidates <- aggregate_candidates cfg agentFid ;;
        agent <- client_getProfile agentFid ;;
        for_of castsCandidates (process_candidate agent) ;;
        now <- dateNow ;;
        modify (set_lastInteractionTimestamp (Some now)) ;;
        log (LogUpdatedTimestamp now)
    end.

(** *** The scheduler: [start] and [stop], lines 36-57 *)

(** [Number(farcasterConfig?.FARCASTER_POLL_INTERVAL ?? 120) * 1000] *)
Definition poll_delay : Z :=
  match farcasterConfig self with
  | Some cfg => nullish (FARCASTER_POLL_INTERVAL cfg) 120
  | None => 120
  end * 1000.

(** [setTimeout(handleInteractionsLoop, ms)], kept in [this.timeout]. *)
Definition setTimeout (ms : Z) : M unit :=
  emit (ESetTimeout ms) ;;
  modify (set_timeout (Some ms)).

Definition handleInteractionsLoop : M unit :=
  try_catch handleInteractions (fun error => log (LogCycleError error)) ;;
  setTimeout poll_delay.

Definition start : M unit := handleInteractionsLoop.


(** The pending timer fires: it is no longer pending and its handler, the
    loop, runs.  With no pending timer nothing happens. *)
Definition timer_fires : M unit :=
  pending <- gets timeout ;;
  match pending with
  | Some _ => modify (set_timeout None) ;; handleInteractionsLoop
  | None => ret tt
  end.

(** [start()] followed by [n] firings of the timer. *)
Fixpoint run_cycles (n : nat) : M unit :=
  match n with
  | O => start
  | S n' => run_cycles n' ;; timer_fires
  end.

End Manager.

Arguments handleCast E self agent cast memory thread w : rename.

(** * Vocabulary of the statements

    Observations on traces and stores, the stages of [handleCast] as
    actions of their own, assumptions on the collaborators, and a concrete
    feed for the examples. *)

Definition is_classifier (ev : Event) : bool :=
  match ev with EGenerateShouldRespond _ => true | _ => false end.

Definition is_generation (ev : Event) : bool :=
  match ev with EGenerateMessageResponse _ => true | _ => false end.

Definition is_dispatch (ev : Event) : bool :=
  match ev with ESendCast _ => true | _ => false end.

Definition is_timer (ev : Event) : bool :=
  match ev with ESetTimeout _ => true | _ => false end.

Definition count_events (p : Event -> bool) (tr : Trace) : nat :=
  length (List.filter p tr).

(** The records of the store filed under an id. *)
Definition records_with_id (id : UUID) (ms : list Memory) : list Memory :=
  List.filter (fun m => bool_decide (m_id m = Some id)) ms.

(** An action stays within [R]: the world after it is related to the
    world before it, whatever it returns. *)
Definition steps_in (R : World -> World -> Prop) {A} (m : M A) : Prop :=
  forall w, R w (snd (m w)).

(** The trace grows, by events of [allowed] only. *)
Definition grows_by (allowed : Event -> bool) (w w' : World) : Prop :=
  exists evs, trace w' = evs ++ trace w /\ forallb allowed evs = true.

Definition quiet_step (allowed : Event -> bool) (w w' : World) : Prop :=
  grows_by allowed w w' /\
  store w' = store w /\
  lastProcessedCasts w' = lastProcessedCasts w.

Definition is_response_stage (ev : Event) : bool :=
  is_classifier ev || is_generation ev || is_dispatch ev.

(** [for (const { memory } of results) createMemory(memory)] *)
Definition store_all (ms : list Memory) (w : World) : World :=
  fold_left
    (fun w m => set_store (fun st => st ++ [m]) (record_event (ECreateMemory m) w))
    ms w.

Definition mark_processed (h : string) (w : World) : World :=
  set_lastProcessedCasts (fun s => {[h]} ∪ s) w.

(** Line 380 on the list of results: the action goes to the first one. *)
Definition restore_action (a : option string) (results : list SendResult)
    : list SendResult :=
  match results with
  | [] => []
  | first :: rest => set_result_action a first :: rest
  end.

Definition no_dispatch (ev : Event) : bool := negb (is_dispatch ev).

(** Events of the stages before the reply exists. *)
Definition context_event (ev : Event) : bool :=
  negb (is_dispatch ev || is_generation ev).

(** The manager with its dry-run flag set to [b], all else equal. *)
Definition set_dry_run (b : bool) (self : Manager) : Manager :=
  mkManager
    match farcasterConfig self with
    | Some cfg =>
        Some (mkConfig (FARCASTER_FID cfg) (FARCASTER_POLL_INTERVAL cfg) b
                (FARCASTER_TARGET_USERS cfg))
    | None => None
    end
    (agentId self) (signerUuid self) (templates self).

(** The events an action added, given the world before and after it. *)
Definition new_events (w w' : World) : Trace :=
  firstn (length (trace w') - length (trace w)) (trace w').

Definition generation_called (evs : Trace) : Prop :=
  exists ctx, In (EGenerateMessageResponse ctx) evs.

Definition any_event (ev : Event) : bool := true.

(** The action pipeline never calls back the callback it was given. *)
Definition quiet_pipeline (E : Env) : Prop :=
  forall m rs s tr, fst (processActions E m rs s tr) = [].

(** The collaborators of the context stage answer: the timeline fetch, the
    state composition and the should-respond classifier do not throw. *)
Definition context_stage_answers (E : Env) : Prop :=
  (forall agentFid pageSize tr,
     exists timeline, getTimeline E agentFid pageSize tr = Ok timeline) /\
  (forall m user timeline currentPost conversation tr,
     exists state,
       composeState E m user timeline currentPost conversation tr = Ok state) /\
  (forall context tr,
     exists verdict, generateShouldRespond E context tr = Ok verdict).

(** The feed gateway is down: every [sendCast] throws. *)
Definition gateway_down (E : Env) : Prop :=
  forall a tr, exists e, sendCast E a tr = Throw e.

(** The records a dispatch returns are filed under ids other than [id]. *)
Definition dispatch_ids_differ (E : Env) (id : UUID) : Prop :=
  forall a tr rs,
    sendCast E a tr = Ok rs ->
    Forall (fun r => m_id (r_memory r) <> Some id) rs.


(** [Math.random()] answers in [0, 1). *)
Definition random_in_unit (E : Env) : Prop :=
  forall tr, 0 <= fst (math_random E tr) < snd (math_random E tr).

Definition nonempty_entry (entry : string * list Cast) : Prop := snd entry <> [].

(** [casts] are the converted survivors [valid] of a run of the filter. *)
Definition surviving_casts (E : Env) (valid : list NeynarCast)
    (casts : list Cast) : Prop :=
  (exists fetched wf,
     fst (filter_m (filter_callback E) fetched wf) = Ok valid) /\
  Forall2 (fun nc c => exists p, c = to_cast nc p) valid casts.

(** [casts] is the filtered set the code computes for [user] at some point
    of the cycle. *)
Definition filtered_set_of (E : Env) (agentFid : Z) (user : string)
    (casts : list Cast) : Prop :=
  exists wu valid,
    fst (user_casts E agentFid user wu) = Ok (Some (valid, casts)) /\
    surviving_casts E valid casts.

(** What the fetch loop guarantees of [castsByUser]. *)
Definition listed (E : Env) (agentFid : Z) (users : list string)
    (m : JsMap (list Cast)) : Prop :=
  NoDup (map fst m) /\
  forall user casts,
    (user, casts) ∈ m ->
    user ∈ users /\ casts <> [] /\ filtered_set_of E agentFid user casts.

Section Vocabulary.

Variable E : Env.
Variable self : Manager.

(** Lines 250-344 as one action: context, inbound record, classifier and
    generation.  It returns the composed state and [responseContent]. *)
Definition respond_stage (agent : Profile) (cast : Cast) (memory : Memory)
    (thread : list Cast) : M (State * Content) :=
  let currentPost := formatCast E cast in
  let senderId := stringToUuid E (pretty (authorFid cast)) in
  timeline <- call (EGetTimeline (fid agent) 10)
                (getTimeline E (fid agent) 10) ;;
  let formattedTimeline := formatTimeline E timeline in
  let formattedConversation :=
    String.concat (newline +:+ newline) (map (format_thread_entry E) thread) in
  state <- call (EComposeState memory (username agent) formattedTimeline
                   currentPost formattedConversation)
             (composeState E memory (username agent) formattedTimeline
                currentPost formattedConversation) ;;
  let shouldRespondContext :=
    composeContext E state
      (nullish
         (or_else (template_of self farcasterShouldRespondTemplate)
            (or_else (template_of self shouldRespondTemplate)
               (Some (default_shouldRespondTemplate E))))
         (default_shouldRespondTemplate E)) in
  let memoryId := castUuid E (agentId self) (hash cast) in
  castMemory <- getMemoryById memoryId ;;
  match castMemory with
  | None => createMemory (createCastMemory E self (m_roomId memory) senderId cast)
  | Some _ => ret tt
  end ;;
  shouldRespondResponse <- call (EGenerateShouldRespond shouldRespondContext)
                             (generateShouldRespond E shouldRespondContext) ;;
  let context :=
    composeContext E state
      (nullish (template_of self farcasterMessageHandlerTemplate)
         (nullish (template_of self messageHandlerTemplate)
            (default_messageHandlerTemplate E))) in
  generated <- call (EGenerateMessageResponse context)
                 (generateMessageResponse E context) ;;
  ret (state, set_inReplyTo (Some memoryId) generated).

(** Lines 355-401 as one action: dispatch, persist, propagate. *)
Definition dispatch_stage (cast : Cast) (memory : Memory) (state : State)
    (responseContent : Content) : M (option Content) :=
  let memoryId := castUuid E (agentId self) (hash cast) in
  responseMessages <-
    callback E self cast (m_roomId memory) memoryId responseContent ;;
  newState <- call (EUpdateRecentMessageState state)
                (updateRecentMessageState E state) ;;
  let message :=
    mkMemory (m_id memory) (m_userId memory) (m_agentId memory)
      (m_roomId memory)
      (mkContent (c_text (m_content memory))
         (c_inReplyTo (m_content memory)) (c_action (m_content memory))
         (Some cast)) in
  run_processActions E message responseMessages newState
    (callback E self cast (m_roomId memory) memoryId) ;;
  ret None.

(** What follows the generation, lines 346-401. *)
Definition after_generation (cast : Cast) (memory : Memory)
    (sr : State * Content) : M (option Content) :=
  let '(state, responseContent) := sr in
  if negb (truthy (c_text responseContent)) then ret None
  else if dry_run self then
    log (LogDryRun (hash cast) (c_text responseContent)) ;;
    ret None
  else dispatch_stage cast memory state responseContent.

(** The inbound record [handleCast] writes for a cast, given the room of
    the message it was called with. *)
Definition inbound_record (cast : Cast) (roomId : UUID) : Memory :=
  createCastMemory E self roomId (stringToUuid E (pretty (authorFid cast))) cast.

Definition memory_id (cast : Cast) : UUID :=
  castUuid E (agentId self) (hash cast).

(** The room [handleInteractions] derives for a cast, line 180-181. *)
Definition room_of (cast : Cast) : UUID :=
  stringToUuid E (toHex E (hash cast) +:+ "-" +:+ agentId self).

End Vocabulary.

(** ** A concrete feed, for the examples *)

Module Scenario.

Definition alice : Profile := mkProfile 7 "Alice" "alice".
Definition agent : Profile := mkProfile 42 "Agent" "agent".

Definition post : Cast :=
  mkCast "0xa1" 7 "gm agent, what is new?" alice None (Some 1000).

Definition own_post : Cast :=
  mkCast "0xb2" 42 "a note to myself" agent None (Some 1000).

Definition reply : Content := mkContent "all good here" None (Some "FOLLOW") None.

(** What [sendCast] returns for one published chunk: it carries no action. *)
Definition sent (h txt : string) : SendResult :=
  mkSendResult
    (mkMemory (Some (h +:+ "/agent-uuid")) "agent-uuid" "agent-uuid" "room"
       (mkContent txt None None None))
    (mkCast h 42 txt agent (Some (mkCastId "0xa1" 7)) (Some 2000)).

Definition manager (dry : bool) (targets : list string) : Manager :=
  mkManager (Some (mkConfig (Some 42) None dry targets)) "agent-uuid"
    "signer-1" None.

(** A manager whose configuration has no FID. *)
Definition manager_no_fid : Manager :=
  mkManager (Some (mkConfig None (Some 30) false ["alice"])) "agent-uuid"
    "signer-1" None.

Definition env (mentions : list Cast) (fetched : list NeynarCast) (now : Z)
    (generated : Content) (send : Res (list SendResult)) : Env :=
  {| stringToUuid := fun s => "uuid:" +:+ s;
     toHex := fun s => s;
     castUuid := fun agentId h => h +:+ "/" +:+ agentId;
     formatCast := fun c => text c;
     formatTimeline := fun cs => String.concat "," (map text cs);
     toLocaleString := fun _ => "Jan 1, 12:00 AM";
     composeContext := fun st template => template +:+ st_currentPost st;
     default_shouldRespondTemplate := "should-respond:";
     default_messageHandlerTemplate := "message:";
     date_now := fun _ => now;
     math_random := fun _ => (1, 2);
     getMentions := fun _ _ _ => Ok mentions;
     lookupUserByUsername := fun _ _ _ => Ok (Some 7);
     fetchCastsForUser := fun _ _ _ _ _ => Ok fetched;
     getProfile := fun f _ => Ok (if f =? 42 then agent else alice);
     getTimeline := fun _ _ _ => Ok [];
     sendCast := fun _ _ => send;
     ensureConnection := fun _ _ _ _ _ _ => Ok tt;
     buildConversationThread := fun c _ => Ok [c];
     composeState := fun m u tl cp fc _ => Ok (mkState m u tl cp fc);
     generateShouldRespond := fun _ _ => Ok (Some "RESPOND");
     generateMessageResponse := fun _ _ => Ok generated;
     updateRecentMessageState := fun st _ => Ok st;
     processActions := fun _ _ _ _ => ([], Ok tt) |}.

Definition w0 : World := mkWorld [] ∅ None None [].

(** Three casts of a tracked author that pass the filter at [now0], and one
    that is too short. *)
Definition now0 : Z := 100000000.

Definition fetched : list NeynarCast :=
  [ mkNeynarCast "0xd1" 7 "first thoughts on the release" None 0
      (Some (now0 - 1000));
    mkNeynarCast "0xd2" 7 "second thoughts on the release" (Some "0xd1") 7
      (Some (now0 - 2000));
    mkNeynarCast "0xd3" 7 "too short" None 0 (Some (now0 - 3000));
    mkNeynarCast "0xd4" 7 "third thoughts on the release" None 0
      (Some (now0 - 4000)) ].

End Scenario.

(** ** Vocabulary of the further properties *)

(** The events of the loop body before [handleCast] does anything but log:
    the gate read, the connection, the thread, and log lines. *)
Definition gate_event (ev : Event) : bool :=
  match ev with
  | ELog _ | EGetMemoryById _ | EEnsureConnection _ _ _ _ _
  | EBuildConversationThread _ => true
  | _ => false
  end.

(** What only happens once a non-empty reply exists: dispatch, the refresh
    of the state, the hand-off to the pipeline, and their log lines. *)
Definition after_reply_event (ev : Event) : bool :=
  match ev with
  | ESendCast _ | EUpdateRecentMessageState _ | EProcessActions _ _ _
  | ELog (LogDryRun _ _) | ELog (LogSendError _) => true
  | _ => false
  end.

(** The environment with another should-respond classifier, all else
    equal. *)
Definition with_classifier
    (classify : string -> Trace -> Res (option string)) (E : Env) : Env :=
  mkEnv (stringToUuid E) (toHex E) (castUuid E) (formatCast E)
    (formatTimeline E) (toLocaleString E) (composeContext E)
    (default_shouldRespondTemplate E) (default_messageHandlerTemplate E)
    (date_now E) (math_random E) (getMentions E) (lookupUserByUsername E)
    (fetchCastsForUser E) (getProfile E) (getTimeline E) (sendCast E)
    (ensureConnection E) (buildConversationThread E) (composeState E)
    classify (generateMessageResponse E) (updateRecentMessageState E)
    (processActions E).

(** A classifier that answers, whatever the verdict. *)
Definition classifier_answers
    (classify : string -> Trace -> Res (option string)) : Prop :=
  forall context tr, exists verdict, classify context tr = Ok verdict.

(** Every reply the generation produces has an empty text. *)
Definition silent_generation (E : Env) : Prop :=
  forall context tr g,
    generateMessageResponse E context tr = Ok g -> truthy (c_text g) = false.

(** The store is only appended to and [lastProcessedCasts] only grows. *)
Definition only_appends (w w' : World) : Prop :=
  (exists added, store w' = store w ++ added) /\
  lastProcessedCasts w ⊆ lastProcessedCasts w'.

(** The timer and [lastInteractionTimestamp] are as they were. *)
Definition keeps_clock_fields (w w' : World) : Prop :=
  timeout w' = timeout w /\
  lastInteractionTimestamp w' = lastInteractionTimestamp w.

(** Every hash that entered [lastProcessedCasts] is the reply target of a
    [sendCast] made meanwhile. *)
Definition marks_follow_dispatch (w w' : World) : Prop :=
  exists evs,
    trace w' = evs ++ trace w /\
    forall h,
      h ∈ lastProcessedCasts w' ->
      h ∈ lastProcessedCasts w \/
      exists a, In (ESendCast a) evs /\ cid_hash (sa_inReplyTo a) = h.

(** [tr] is the trace at a [Date.now()] call made between [w] and [w']. *)
Definition clock_read (w w' : World) (tr : Trace) : Prop :=
  exists e1 e2, tr = e1 ++ trace w /\ trace w' = e2 ++ EDateNow :: tr.

(** What the filter guarantees of a cast taken from a tracked author
    between [w] and [w'], with [processed] the set it was tested against. *)
Definition tracked_ok (E : Env) (processed : gset string) (w w' : World)
    (c : Cast) : Prop :=
  (hash c ∉ processed) /\
  (10 < js_length (text c))%nat /\
  exists t tr,
    timestamp c = Some t /\
    clock_read w w' tr /\
    date_now E tr - t < 24 * 60 * 60 * 1000.

(** The store holds a record under the memory id of the cast. *)
Definition known (E : Env) (self : Manager) (ms : list Memory) (c : Cast)
    : Prop :=
  store_lookup (memory_id E self c) ms <> None.


(** The calls and log lines of the aggregation, lines 68-173: gateway
    reads, the clock, the random source and log lines. *)
Definition aggregation_event (ev : Event) : bool :=
  match ev with
  | EGetMentions _ _ | ELookupUserByUsername _ _
  | EFetchCastsForUser _ _ _ _ | EGetProfile _ | EDateNow | EMathRandom
  | ELog (LogProcessingTargets _) | ELog (LogUserNotFound _)
  | ELog (LogCastChecks _ _ _ _) | ELog (LogFoundValid _ _ _ _ _)
  | ELog (LogNoValid _) | ELog (LogFetchError _ _) | ELog (LogSelected _ _) =>
      true
  | _ => false
  end.

(** Every cast kept in [castsByUser] passed the filter against
    [processed]. *)
Definition entries_ok (E : Env) (processed : gset string) (w w' : World)
    (m : JsMap (list Cast)) : Prop :=
  Forall (fun entry => Forall (tracked_ok E processed w w') (snd entry)) m.

(** [castUuid] never answers with the empty string. *)
Definition uuids_nonempty (E : Env) : Prop :=
  forall agentId h, truthy (castUuid E agentId h) = true.

(** The arguments of a [sendCast] that answers [cast] in room [roomId]:
    the reply target is the cast, the signer and profile are those of the
    manager and of the cast, and the content names what it replies to. *)
Definition answers_cast (self : Manager) (cast : Cast) (roomId : UUID)
    (a : SendArgs) : Prop :=
  sa_inReplyTo a = mkCastId (hash cast) (authorFid cast) /\
  sa_signerUuid a = signerUuid self /\
  sa_profile a = profile cast /\
  sa_roomId a = roomId /\
  truthy_opt (c_inReplyTo (sa_content a)) = true.

(** Every [sendCast] made meanwhile has arguments in [P]. *)
Definition sends_only (P : SendArgs -> Prop) (w w' : World) : Prop :=
  exists evs,
    trace w' = evs ++ trace w /\ forall a, In (ESendCast a) evs -> P a.

(** * Lemmas and theorems *)

(** ** Stepwise reasoning

    [R] relates the world before an action to the world after it.  When
    [R] is a preorder that admits the recording of every event in
    [allowed], an action made of allowed calls and of [R]-respecting state
    updates stays within [R], whatever it returns. *)

Section Steps.

Variable R : World -> World -> Prop.
Variable allowed : Event -> bool.
Hypothesis R_refl : forall w, R w w.
Hypothesis R_trans : forall a b c, R a b -> R b c -> R a c.
Hypothesis R_event :
  forall ev w, allowed ev = true -> R w (record_event ev w).

Lemma steps_ret {A} (a : A) : steps_in R (ret a).
Proof. intros w. apply R_refl. Qed.

Lemma steps_throw {A} (e : Exn) : steps_in R (@throw A e).
Proof. intros w. apply R_refl. Qed.

Lemma steps_gets {A} (f : World -> A) : steps_in R (gets f).
Proof. intros w. apply R_refl. Qed.

Lemma steps_modify (f : World -> World) :
  (forall w, R w (f w)) -> steps_in R (modify f).
Proof. intros H w. apply H. Qed.

Lemma steps_emit ev : allowed ev = true -> steps_in R (emit ev).
Proof. intros H w. apply R_event, H. Qed.

Lemma steps_call {A} ev (answer : Trace -> Res A) :
  allowed ev = true -> steps_in R (call ev answer).
Proof. intros H w. apply R_event, H. Qed.

Lemma steps_bind {A B} (m : M A) (k : A -> M B) :
  steps_in R m -> (forall a, steps_in R (k a)) -> steps_in R (bind m k).
Proof.
  intros Hm Hk w. unfold bind. specialize (Hm w).
  destruct (m w) as [[a|e] w1]; simpl in *; [|exact Hm].
  eapply R_trans; [exact Hm|apply Hk].
Qed.

Lemma steps_try_catch {A} (m : M A) (h : Exn -> M A) :
  steps_in R m -> (forall e, steps_in R (h e)) -> steps_in R (try_catch m h).
Proof.
  intros Hm Hh w. unfold try_catch. specialize (Hm w).
  destruct (m w) as [[a|e] w1]; simpl in *; [exact Hm|].
  eapply R_trans; [exact Hm|apply Hh].
Qed.

Lemma steps_for_of {A} (xs : list A) (body : A -> M unit) :
  (forall x, steps_in R (body x)) -> steps_in R (for_of xs body).
Proof.
  intros Hb. induction xs as [|x xs IH]; simpl.
  - apply steps_ret.
  - apply steps_bind; [apply Hb|intros _; exact IH].
Qed.

Lemma steps_for_of_acc {A S} (xs : list A) (body : A -> S -> M S) (acc : S) :
  (forall x s, steps_in R (body x s)) -> steps_in R (for_of_acc xs body acc).
Proof.
  intros Hb. revert acc. induction xs as [|x xs IH]; intros acc; simpl.
  - apply steps_ret.
  - apply steps_bind; [apply Hb|intros s; apply IH].
Qed.

Lemma steps_filter_m {A} (p : A -> M bool) (xs : list A) :
  (forall x, steps_in R (p x)) -> steps_in R (filter_m p xs).
Proof.
  intros Hp. induction xs as [|x xs IH]; simpl.
  - apply steps_ret.
  - apply steps_bind; [apply Hp|intros b].
    apply steps_bind; [exact IH|intros rest; apply steps_ret].
Qed.

Lemma steps_map_m {A B} (f : A -> M B) (xs : list A) :
  (forall x, steps_in R (f x)) -> steps_in R (map_m f xs).
Proof.
  intros Hf. induction xs as [|x xs IH]; simpl.
  - apply steps_ret.
  - apply steps_bind; [apply Hf|intros y].
    apply steps_bind; [exact IH|intros rest; apply steps_ret].
Qed.

End Steps.

(** Breaks an action into its calls and updates; what is left are the side
    conditions [allowed ev = true] and [R w (f w)].  The preorder and event
    hypotheses are taken from the context. *)
Ltac steps :=
  repeat match goal with
    | |- steps_in _ (ret _) => apply steps_ret; assumption
    | |- steps_in _ (throw _) => apply steps_throw; assumption
    | |- steps_in _ (gets _) => apply steps_gets; assumption
    | |- steps_in _ (bind _ _) => apply steps_bind; [assumption| |intros]
    | |- steps_in _ (try_catch _ _) =>
        apply steps_try_catch; [assumption| |intros]
    | |- steps_in _ (for_of _ _) =>
        apply steps_for_of; [assumption|assumption|intros]
    | |- steps_in _ (for_of_acc _ _ _) =>
        apply steps_for_of_acc; [assumption|assumption|intros]
    | |- steps_in _ (filter_m _ _) =>
        apply steps_filter_m; [assumption|assumption|intros]
    | |- steps_in _ (map_m _ _) =>
        apply steps_map_m; [assumption|assumption|intros]
    | |- steps_in _ (emit _) => eapply steps_emit; [eassumption|]
    | |- steps_in _ (call _ _) => eapply steps_call; [eassumption|]
    | |- steps_in _ (modify _) => apply steps_modify; intros
    | |- steps_in _ (match ?x with _ => _ end) => destruct x
    end.

Lemma grows_by_refl allowed w : grows_by allowed w w.
Proof. exists []. split; reflexivity. Qed.

Lemma grows_by_trans allowed a b c :
  grows_by allowed a b -> grows_by allowed b c -> grows_by allowed a c.
Proof.
  intros (e1 & H1 & A1) (e2 & H2 & A2). exists (e2 ++ e1). split.
  - rewrite H2, H1. apply app_assoc.
  - rewrite forallb_app, A1, A2. reflexivity.
Qed.

Lemma grows_by_event allowed ev w :
  allowed ev = true -> grows_by allowed w (record_event ev w).
Proof. intros H. exists [ev]. simpl. rewrite H. split; reflexivity. Qed.

Lemma grows_by_same_trace allowed w w' :
  trace w' = trace w -> grows_by allowed w w'.
Proof. intros H. exists []. split; [exact H|reflexivity]. Qed.

Lemma grows_by_count allowed p w w' :
  (forall ev, allowed ev = true -> p ev = false) ->
  grows_by allowed w w' ->
  count_events p (trace w') = count_events p (trace w).
Proof.
  intros Hp (evs & Htr & Hall). unfold count_events. rewrite Htr.
  clear Htr. induction evs as [|ev evs IH]; simpl in *; [reflexivity|].
  apply andb_prop in Hall as [Hev Hall].
  rewrite (Hp ev Hev). apply IH, Hall.
Qed.

(** Opens the manager's methods down to the monad's operations. *)
Ltac unfold_manager :=
  unfold handleInteractions, aggregate_candidates, select_casts, select_one,
    fetch_user, user_casts, record_user_casts, process_candidate, handleCast,
    run_processActions, callback, filter_callback, client_getProfile,
    dateNow, mathRandom, getMemoryById, createMemory, log.

(** Runs the monad's operations down to matches on what the collaborators
    answer. *)
Ltac run_m :=
  unfold getMemoryById, createMemory, log, dateNow, mathRandom,
    client_getProfile;
  unfold bind, try_catch, call, emit, modify, gets, ret, throw;
  cbv beta iota zeta;
  cbn [store lastProcessedCasts trace timeout lastInteractionTimestamp
       record_event set_store set_lastProcessedCasts set_timeout
       set_lastInteractionTimestamp].

Lemma bind_run {A B} (m : M A) (k : A -> M B) w :
  bind m k w =
  match m w with
  | (Ok a, w') => k a w'
  | (Throw e, w') => (Throw e, w')
  end.
Proof. reflexivity. Qed.

Lemma ext_nil (tr : Trace) : tr = [] ++ tr.
Proof. reflexivity. Qed.

Lemma ext_cons (ev : Event) (evs tr tr' : Trace) :
  tr' = evs ++ tr -> ev :: tr' = (ev :: evs) ++ tr.
Proof. intros ->. reflexivity. Qed.

(** Closes [exists evs, tr' = evs ++ tr /\ forallb p evs = true] when [tr']
    is [tr] under explicit events. *)
Ltac solve_grows :=
  eexists; split;
  [repeat (eapply ext_cons); apply ext_nil | reflexivity].

(** ** The scheduler *)

Lemma loop_unfold E self w :
  handleInteractionsLoop E self w =
  let '(r, w1) := handleInteractions E self w in
  let w2 := match r with
            | Ok _ => w1
            | Throw e => record_event (ELog (LogCycleError e)) w1
            end in
  (Ok tt, set_timeout (Some (poll_delay self))
            (record_event (ESetTimeout (poll_delay self)) w2)).
Proof.
  unfold handleInteractionsLoop, bind, try_catch.
  destruct (handleInteractions E self w) as [[[]|e] w1]; reflexivity.
Qed.

(** A poll cycle never touches the timer: that is the loop's business. *)
Lemma handleInteractions_sets_no_timer E self :
  steps_in (grows_by (fun ev => negb (is_timer ev)))
    (handleInteractions E self).
Proof.
  set (ok := fun ev => negb (is_timer ev)).
  pose proof (grows_by_refl ok) as Hr.
  pose proof (grows_by_trans ok) as Ht.
  pose proof (grows_by_event ok) as He.
  unfold_manager. steps.
  all: try reflexivity.
  all: apply grows_by_same_trace; reflexivity.
Qed.

Lemma loop_timer_count E self w :
  count_events is_timer (trace (snd (handleInteractionsLoop E self w))) =
  S (count_events is_timer (trace w)).
Proof.
  rewrite loop_unfold.
  pose proof (handleInteractions_sets_no_timer E self w) as Hg.
  destruct (handleInteractions E self w) as [r w1]. simpl in Hg.
  assert (Hc : count_events is_timer (trace w1) =
               count_events is_timer (trace w)).
  { eapply grows_by_count; [|exact Hg].
    intros ev Hev. simpl in Hev. destruct (is_timer ev); [discriminate|reflexivity]. }
  destruct r; simpl; unfold count_events in *; simpl; rewrite Hc; reflexivity.
Qed.

Lemma loop_returns E self w :
  fst (handleInteractionsLoop E self w) = Ok tt /\
  timeout (snd (handleInteractionsLoop E self w)) = Some (poll_delay self).
Proof.
  rewrite loop_unfold.
  destruct (handleInteractions E self w) as [r w1]. split; reflexivity.
Qed.

Lemma run_cycles_spec E self n w :
  exists w',
    run_cycles E self n w = (Ok tt, w') /\
    timeout w' = Some (poll_delay self) /\
    count_events is_timer (trace w') =
      (count_events is_timer (trace w) + S n)%nat.
Proof.
  induction n as [|n IH].
  - simpl. unfold start.
    destruct (loop_returns E self w) as [Hr Ht].
    pose proof (loop_timer_count E self w) as Hc.
    destruct (handleInteractionsLoop E self w) as [r w'] eqn:Hl.
    simpl in *. subst r. exists w'. split; [reflexivity|]. split; [exact Ht|lia].
  - destruct IH as (w1 & Hrun & Hto & Hc).
    simpl. unfold bind at 1. rewrite Hrun.
    unfold timer_fires, bind, gets, modify. rewrite Hto.
    destruct (loop_returns E self (set_timeout None w1)) as [Hr Ht].
    pose proof (loop_timer_count E self (set_timeout None w1)) as Hc'.
    destruct (handleInteractionsLoop E self (set_timeout None w1))
      as [r w'] eqn:Hl.
    simpl in *. subst r. exists w'. split; [reflexivity|].
    split; [exact Ht|]. rewrite Hc', Hc. lia.
Qed.

(** C7.  Whatever the cycle did, returned or threw, the loop settles with
    the next timer set: an error of the cycle is logged and swallowed, and
    the delay is the configured interval in seconds, 120 when none is
    configured, times 1000.  Hence after [start()] and any number of
    firings of the timer the loop has returned, a timer is pending again,
    and one more [setTimeout] was made per cycle. *)
Theorem scheduler_always_reschedules E self w :
  (let '(r, w1) := handleInteractions E self w in
   handleInteractionsLoop E self w =
     (Ok tt,
      set_timeout (Some (poll_delay self))
        (record_event (ESetTimeout (poll_delay self))
           match r with
           | Ok _ => w1
           | Throw e => record_event (ELog (LogCycleError e)) w1
           end)))
  /\ poll_delay self =
       match farcasterConfig self with
       | Some cfg =>
           match FARCASTER_POLL_INTERVAL cfg with
           | Some seconds => seconds * 1000
           | None => 120 * 1000
           end
       | None => 120 * 1000
       end
  /\ forall n, exists w',
       run_cycles E self n w = (Ok tt, w') /\
       timeout w' = Some (poll_delay self) /\
       count_events is_timer (trace w') =
         (count_events is_timer (trace w) + S n)%nat.
Proof.
  split; [|split].
  - pose proof (loop_unfold E self w) as H.
    destruct (handleInteractions E self w) as [r w1]. exact H.
  - unfold poll_delay. destruct (farcasterConfig self) as [cfg|]; [|reflexivity].
    destruct (FARCASTER_POLL_INTERVAL cfg); reflexivity.
  - intros n. apply run_cycles_spec.
Qed.

(** C10.  With no configuration, no FID or FID 0, a poll cycle logs its two
    lines and returns: nothing is fetched, no candidate is processed, no
    call leaves the manager and the store and [lastProcessedCasts] are
    untouched; the loop then sets the next timer as usual. *)
Theorem no_fid_cycle_is_noop E self w :
  (farcasterConfig self = None \/
   exists cfg, farcasterConfig self = Some cfg /\
               (FARCASTER_FID cfg = None \/ FARCASTER_FID cfg = Some 0)) ->
  handleInteractions E self w =
    (Ok tt, record_event (ELog LogNoFid) (record_event (ELog LogChecking) w))
  /\ handleInteractionsLoop E self w =
       (Ok tt,
        set_timeout (Some (poll_delay self))
          (record_event (ESetTimeout (poll_delay self))
             (record_event (ELog LogNoFid)
                (record_event (ELog LogChecking) w)))).
Proof.
  intros Hfid.
  assert (H0 : agent_fid self = 0).
  { unfold agent_fid.
    destruct Hfid as [-> | (cfg & -> & [-> | ->])]; reflexivity. }
  assert (Hc : handleInteractions E self w =
    (Ok tt, record_event (ELog LogNoFid) (record_event (ELog LogChecking) w))).
  { unfold handleInteractions, bind, log, emit, modify. rewrite H0. reflexivity. }
  split; [exact Hc|].
  rewrite loop_unfold, Hc. reflexivity.
Qed.

(** ** Steps that leave the store and [lastProcessedCasts] alone *)

Lemma quiet_step_refl allowed w : quiet_step allowed w w.
Proof. split; [apply grows_by_refl|split; reflexivity]. Qed.

Lemma quiet_step_trans allowed a b c :
  quiet_step allowed a b -> quiet_step allowed b c -> quiet_step allowed a c.
Proof.
  intros (G1 & S1 & P1) (G2 & S2 & P2). split; [|split].
  - eapply grows_by_trans; eassumption.
  - congruence.
  - congruence.
Qed.

Lemma quiet_step_event allowed ev w :
  allowed ev = true -> quiet_step allowed w (record_event ev w).
Proof. intros H. split; [apply grows_by_event, H|split; reflexivity]. Qed.

(** ** Self-authored casts *)

Lemma handleCast_self E self agent cast memory thread w :
  fid (profile cast) = fid agent ->
  handleCast E self agent cast memory thread w =
    (Ok None, record_event (ELog (LogSkipSelf (hash cast))) w).
Proof.
  intros H. unfold handleCast. rewrite H, Z.eqb_refl. reflexivity.
Qed.

(** C8.  A candidate whose author is the agent itself ends [handleCast] on
    its first test, with one log line and nothing else; through the whole
    loop body for that candidate the classifier, the generation and the
    dispatch are never called, and the store and [lastProcessedCasts] stay
    as they were. *)
Theorem self_authored_never_answered E self agent cast :
  fid (profile cast) = fid agent ->
  (forall memory thread w,
     handleCast E self agent cast memory thread w =
       (Ok None, record_event (ELog (LogSkipSelf (hash cast))) w))
  /\ (forall w,
        let w' := snd (process_candidate E self agent cast w) in
        store w' = store w /\
        lastProcessedCasts w' = lastProcessedCasts w /\
        exists evs,
          trace w' = evs ++ trace w /\
          forallb (fun ev => negb (is_response_stage ev)) evs = true).
Proof.
  intros Hself. split.
  - intros memory thread w. apply handleCast_self, Hself.
  - set (ok := fun ev => negb (is_response_stage ev)).
    assert (Hq : steps_in (quiet_step ok) (process_candidate E self agent cast)).
    { pose proof (quiet_step_refl ok) as Hr.
      pose proof (quiet_step_trans ok) as Ht.
      pose proof (quiet_step_event ok) as He.
      unfold process_candidate, getMemoryById. steps.
      all: try reflexivity.
      intros w. rewrite handleCast_self by exact Hself.
      apply He. reflexivity. }
    intros w. destruct (Hq w) as ((evs & Htr & Hall) & Hs & Hp).
    split; [exact Hs|]. split; [exact Hp|]. exists evs. split; assumption.
Qed.

(** ** The dispatch callback *)

Lemma for_of_createMemory results w :
  for_of results (fun r => createMemory (r_memory r)) w =
    (Ok tt, store_all (map r_memory results) w).
Proof.
  revert w. induction results as [|r rs IH]; intros w; [reflexivity|].
  simpl. unfold bind at 1. unfold createMemory at 1, bind, emit, modify.
  apply IH.
Qed.

Lemma store_all_store ms w : store (store_all ms w) = store w ++ ms.
Proof.
  revert w. induction ms as [|m ms IH]; intros w; simpl.
  - symmetry. apply app_nil_r.
  - unfold store_all in IH. rewrite IH. simpl. rewrite <- app_assoc. reflexivity.
Qed.

Lemma store_all_processed ms w :
  lastProcessedCasts (store_all ms w) = lastProcessedCasts w.
Proof.
  revert w. induction ms as [|m ms IH]; intros w; simpl; [reflexivity|].
  unfold store_all in IH. rewrite IH. reflexivity.
Qed.

Lemma store_all_trace ms w :
  trace (store_all ms w) = rev (map ECreateMemory ms) ++ trace w.
Proof.
  revert w. induction ms as [|m ms IH]; intros w; simpl; [reflexivity|].
  unfold store_all in IH. rewrite IH. simpl. rewrite <- app_assoc. reflexivity.
Qed.

Lemma callback_unfold E self cast roomId memoryId content w :
  callback E self cast roomId memoryId content w =
  let content' := with_reply_target memoryId content in
  let args := send_args self cast roomId content' in
  let w1 := record_event (ESendCast args) w in
  match sendCast E args (trace w) with
  | Throw e => (Ok [], record_event (ELog (LogSendError e)) w1)
  | Ok [] =>
      (Ok [],
       record_event (ELog (LogSendError (TypeError "results[0] is undefined")))
         (mark_processed (hash cast) w1))
  | Ok (first :: rest) =>
      let outbound :=
        map r_memory (set_result_action (c_action content') first :: rest) in
      (Ok outbound, store_all outbound (mark_processed (hash cast) w1))
  end.
Proof.
  unfold callback, try_catch, bind, call, modify, ret. cbv beta iota zeta.
  destruct (sendCast E _ (trace w)) as [[|first rest]|e]; try reflexivity.
  rewrite for_of_createMemory. reflexivity.
Qed.

Lemma with_reply_target_action memoryId content :
  c_action (with_reply_target memoryId content) = c_action content.
Proof.
  unfold with_reply_target.
  destruct (truthy memoryId && negb (truthy_opt (c_inReplyTo content)));
    reflexivity.
Qed.

(** C9.  When the dispatch resolves to an empty list, the cast hash is put
    into [lastProcessedCasts] first, reading [results[0]] then throws, the
    callback's own [catch] logs that error and the callback returns the
    empty list: the post is marked processed in memory and the store has
    gained no record. *)
Theorem empty_dispatch_marks_processed_without_record
    E self cast roomId memoryId content w :
  sendCast E (send_args self cast roomId (with_reply_target memoryId content))
    (trace w) = Ok [] ->
  exists w',
    callback E self cast roomId memoryId content w = (Ok [], w') /\
    hash cast ∈ lastProcessedCasts w' /\
    lastProcessedCasts w' = {[hash cast]} ∪ lastProcessedCasts w /\
    store w' = store w /\
    trace w' =
      ELog (LogSendError (TypeError "results[0] is undefined"))
      :: ESendCast
           (send_args self cast roomId (with_reply_target memoryId content))
      :: trace w.
Proof.
  intros Hsend. rewrite callback_unfold. simpl. rewrite Hsend.
  eexists. split; [reflexivity|]. simpl.
  split; [set_solver|]. repeat split.
Qed.

(** C2, amended.  When the dispatch resolves, the cast hash is added to
    [lastProcessedCasts], the store gains one record per record of the
    dispatch, in order, and the callback returns them.  The first of them
    carries the action of the content; the others are stored as the
    dispatch returned them. *)
Theorem dispatch_success_persists_results
    E self cast roomId memoryId content w results :
  sendCast E (send_args self cast roomId (with_reply_target memoryId content))
    (trace w) = Ok results ->
  let outbound := map r_memory (restore_action (c_action content) results) in
  exists w',
    callback E self cast roomId memoryId content w = (Ok outbound, w') /\
    lastProcessedCasts w' = {[hash cast]} ∪ lastProcessedCasts w /\
    store w' = store w ++ outbound /\
    length outbound = length results /\
    (forall first rest,
       results = first :: rest ->
       exists first',
         outbound = first' :: map r_memory rest /\
         c_action (m_content first') = c_action content /\
         first' =
           mkMemory (m_id (r_memory first)) (m_userId (r_memory first))
             (m_agentId (r_memory first)) (m_roomId (r_memory first))
             (set_action (c_action content) (m_content (r_memory first)))).
Proof.
  intros Hsend. cbv zeta. rewrite callback_unfold. cbv zeta. rewrite Hsend.
  rewrite with_reply_target_action.
  destruct results as [|first rest].
  - eexists. split; [reflexivity|]. simpl. rewrite app_nil_r.
    repeat split. intros first rest H. discriminate H.
  - eexists. split; [reflexivity|].
    rewrite store_all_processed, store_all_store. simpl.
    rewrite length_map. repeat split.
    intros first0 rest0 [= <- <-]. eexists. repeat split.
Qed.

Lemma dispatch_success_persists_results_witness :
  let E := Scenario.env [] [] 0 Scenario.reply
             (Ok [Scenario.sent "0xc1" "all good"; Scenario.sent "0xc2" "here"]) in
  let self := Scenario.manager false [] in
  sendCast E
    (send_args self Scenario.post "room"
       (with_reply_target "0xa1/agent-uuid" Scenario.reply))
    (trace Scenario.w0)
  = Ok [Scenario.sent "0xc1" "all good"; Scenario.sent "0xc2" "here"] /\
  exists w',
    callback E self Scenario.post "room" "0xa1/agent-uuid" Scenario.reply
      Scenario.w0
    = (Ok (map r_memory
             (restore_action (Some "FOLLOW")
                [Scenario.sent "0xc1" "all good"; Scenario.sent "0xc2" "here"])),
       w') /\
    length (store w') = 2%nat.
Proof.
  cbv zeta. split; [reflexivity|].
  destruct (dispatch_success_persists_results
              (Scenario.env [] [] 0 Scenario.reply
                 (Ok [Scenario.sent "0xc1" "all good"; Scenario.sent "0xc2" "here"]))
              (Scenario.manager false []) Scenario.post "room" "0xa1/agent-uuid"
              Scenario.reply Scenario.w0
              [Scenario.sent "0xc1" "all good"; Scenario.sent "0xc2" "here"]
              eq_refl)
    as (w' & Hrun & _ & Hstore & _).
  exists w'. split; [exact Hrun|]. rewrite Hstore. reflexivity.
Defined.

(** C2 as stated fails when the dispatch fans out: of two records returned
    for a content tagged FOLLOW, the second is stored without the tag. *)
Lemma dispatch_success_action_on_every_record_refuted :
  let E := Scenario.env [] [] 0 Scenario.reply
             (Ok [Scenario.sent "0xc1" "all good"; Scenario.sent "0xc2" "here"]) in
  let w' := snd (callback E (Scenario.manager false []) Scenario.post "room"
                   "0xa1/agent-uuid" Scenario.reply Scenario.w0) in
  length (store w') = 2%nat /\
  ~ (forall m, In m (store w') ->
       c_action (m_content m) = c_action Scenario.reply).
Proof.
  cbv zeta. rewrite callback_unfold. cbv zeta.
  change (sendCast _ _ _) with
    (Ok [Scenario.sent "0xc1" "all good"; Scenario.sent "0xc2" "here"]).
  cbv iota beta. unfold snd. rewrite store_all_store. simpl.
  split; [reflexivity|].
  intros H. specialize (H _ (or_intror (or_introl eq_refl))).
  discriminate H.
Qed.

(** ** The stages of [handleCast] *)

Section Stages.

Variable E : Env.
Variable self : Manager.

Lemma handleCast_stages agent cast memory thread w :
  handleCast E self agent cast memory thread w =
  (if fid (profile cast) =? fid agent then
     log (LogSkipSelf (hash cast)) ;; ret None
   else if negb (truthy (c_text (m_content memory))) then
     log (LogSkipNoText (hash cast)) ;;
     ret (Some (mkContent "" None (Some "IGNORE") None))
   else
     sr <- respond_stage E self agent cast memory thread ;;
     after_generation E self cast memory sr) w.
Proof.
  unfold handleCast.
  destruct (fid (profile cast) =? fid agent); [reflexivity|].
  destruct (negb (truthy (c_text (m_content memory)))); [reflexivity|].
  unfold respond_stage, after_generation, dispatch_stage. run_m.
  destruct (getTimeline E _ _ _) as [timeline|e]; [|reflexivity].
  destruct (composeState E _ _ _ _ _ _) as [state|e]; [|reflexivity].
  destruct (store_lookup _ _) as [m|];
    destruct (generateShouldRespond E _ _) as [sr|e]; try reflexivity;
    destruct (generateMessageResponse E _ _) as [g|e]; reflexivity.
Qed.

End Stages.

(** ** What a pass over one candidate leaves behind *)

Lemma store_lookup_app id ms ms' :
  store_lookup id (ms ++ ms') =
  match store_lookup id ms with
  | Some m => Some m
  | None => store_lookup id ms'
  end.
Proof.
  unfold store_lookup. induction ms as [|m ms IH]; simpl; [reflexivity|].
  destruct (bool_decide (m_id m = Some id)); [reflexivity|exact IH].
Qed.

Lemma store_lookup_found id ms m :
  m_id m = Some id -> store_lookup id (ms ++ [m]) <> None.
Proof.
  intros Hid. rewrite store_lookup_app.
  destruct (store_lookup id ms); [discriminate|].
  unfold store_lookup. simpl. rewrite bool_decide_eq_true_2 by exact Hid.
  discriminate.
Qed.

Lemma records_with_id_none id ms :
  store_lookup id ms = None -> records_with_id id ms = [].
Proof.
  unfold store_lookup, records_with_id.
  induction ms as [|m ms IH]; simpl; [reflexivity|].
  destruct (bool_decide (m_id m = Some id)); [discriminate|exact IH].
Qed.

Lemma records_with_id_other id ms :
  Forall (fun m => m_id m <> Some id) ms -> records_with_id id ms = [].
Proof.
  unfold records_with_id. induction 1 as [|m ms Hm _ IH]; simpl; [reflexivity|].
  rewrite bool_decide_eq_false_2 by exact Hm. exact IH.
Qed.

Section Passes.

Variable E : Env.
Variable self : Manager.

Lemma inbound_record_id cast roomId :
  m_id (inbound_record E self cast roomId) = Some (memory_id E self cast).
Proof. reflexivity. Qed.

Lemma respond_stage_spec agent cast memory thread w :
  let '(r, w1) := respond_stage E self agent cast memory thread w in
  lastProcessedCasts w1 = lastProcessedCasts w /\
  (store w1 = store w \/
   (store_lookup (memory_id E self cast) (store w) = None /\
    store w1 = store w ++ [inbound_record E self cast (m_roomId memory)])) /\
  match r with
  | Ok (state, rc) =>
      store_lookup (memory_id E self cast) (store w1) <> None /\
      exists ctx evs g,
        trace w1 = EGenerateMessageResponse ctx :: evs ++ trace w /\
        forallb context_event evs = true /\
        generateMessageResponse E ctx (evs ++ trace w) = Ok g /\
        rc = set_inReplyTo (Some (memory_id E self cast)) g
  | Throw e =>
      (exists evs, trace w1 = evs ++ trace w /\
                   forallb context_event evs = true) \/
      (exists ctx evs,
         trace w1 = EGenerateMessageResponse ctx :: evs ++ trace w /\
         forallb context_event evs = true /\
         generateMessageResponse E ctx (evs ++ trace w) = Throw e)
  end.
Proof.
  unfold respond_stage. run_m.
  destruct (getTimeline E _ _ _) as [timeline|e].
  2:{ split; [reflexivity|]. split; [left; reflexivity|left; solve_grows]. }
  destruct (composeState E _ _ _ _ _ _) as [state|e].
  2:{ split; [reflexivity|]. split; [left; reflexivity|left; solve_grows]. }
  fold (memory_id E self cast).
  fold (inbound_record E self cast (m_roomId memory)).
  destruct (store_lookup (memory_id E self cast) (store w)) as [m|] eqn:Hlook; run_m.
  - destruct (generateShouldRespond E _ _) as [sr|e].
    2:{ split; [reflexivity|]. split; [left; reflexivity|left; solve_grows]. }
    destruct (generateMessageResponse E _ _) as [g|e] eqn:Hgen.
    + split; [reflexivity|]. split; [left; reflexivity|].
      split; [cbn [store record_event]; rewrite Hlook; discriminate|].
      eexists _, _, g.
      split; [f_equal; repeat (eapply ext_cons); apply ext_nil|].
      split; [reflexivity|]. split; [exact Hgen|reflexivity].
    + split; [reflexivity|]. split; [left; reflexivity|].
      right. eexists _, _.
      split; [f_equal; repeat (eapply ext_cons); apply ext_nil|].
      split; [reflexivity|exact Hgen].
  - destruct (generateShouldRespond E _ _) as [sr|e].
    2:{ split; [reflexivity|].
        split; [right; split; reflexivity|left; solve_grows]. }
    destruct (generateMessageResponse E _ _) as [g|e] eqn:Hgen.
    + split; [reflexivity|]. split; [right; split; reflexivity|].
      split; [cbn [store record_event set_store];
              apply store_lookup_found, inbound_record_id|].
      eexists _, _, g.
      split; [f_equal; repeat (eapply ext_cons); apply ext_nil|].
      split; [reflexivity|]. split; [exact Hgen|reflexivity].
    + split; [reflexivity|]. split; [right; split; reflexivity|].
      right. eexists _, _.
      split; [f_equal; repeat (eapply ext_cons); apply ext_nil|].
      split; [reflexivity|exact Hgen].
Qed.

End Passes.

(** ** Dry run *)

Lemma new_events_grows w w' evs :
  trace w' = evs ++ trace w -> new_events w w' = evs.
Proof.
  intros H. unfold new_events. rewrite H, length_app.
  replace (length evs + length (trace w) - length (trace w))%nat
    with (length evs + 0)%nat by lia.
  rewrite firstn_app_2. simpl. apply app_nil_r.
Qed.

Lemma respond_stage_dry_flag E self b agent cast memory thread :
  respond_stage E (set_dry_run b self) agent cast memory thread =
  respond_stage E self agent cast memory thread.
Proof. reflexivity. Qed.

Lemma context_events_no_generation evs :
  forallb context_event evs = true -> ~ generation_called evs.
Proof.
  intros Hall (ctx & Hin).
  rewrite forallb_forall in Hall. specialize (Hall _ Hin). discriminate Hall.
Qed.

Lemma no_generation_not_called evs :
  forallb (fun ev => negb (is_generation ev)) evs = true ->
  ~ generation_called evs.
Proof.
  intros Hall (ctx & Hin).
  rewrite forallb_forall in Hall. specialize (Hall _ Hin). discriminate Hall.
Qed.

Lemma context_events_no_dispatch evs :
  forallb context_event evs = true -> forallb no_dispatch evs = true.
Proof.
  rewrite !forallb_forall. intros H ev Hin. specialize (H ev Hin).
  unfold context_event, no_dispatch in *.
  destruct (is_dispatch ev); [discriminate H|reflexivity].
Qed.

(** What the dry run leaves alone: [handleCast] never calls [sendCast],
    leaves [lastProcessedCasts] as it was and writes at most the inbound
    record.  If the same call with the flag off invokes the generation, so
    does the dry run; and once the generation is invoked and answers with a
    text, the dry-run line is the next and last thing that happens. *)
Lemma dry_run_containment E self agent cast memory thread w :
  dry_run self = true ->
  let '(r, w') := handleCast E self agent cast memory thread w in
  let live :=
    snd (handleCast E (set_dry_run false self) agent cast memory thread w) in
  lastProcessedCasts w' = lastProcessedCasts w
  /\ (store w' = store w \/
      store w' = store w ++ [inbound_record E self cast (m_roomId memory)])
  /\ (exists evs, trace w' = evs ++ trace w /\ forallb no_dispatch evs = true)
  /\ (generation_called (new_events w live) ->
      generation_called (new_events w w'))
  /\ (generation_called (new_events w w') ->
      exists ctx evs,
        match generateMessageResponse E ctx (evs ++ trace w) with
        | Ok g =>
            r = Ok None /\
            trace w' =
              (if truthy (c_text g)
               then [ELog (LogDryRun (hash cast) (c_text g))]
               else [])
              ++ EGenerateMessageResponse ctx :: evs ++ trace w
        | Throw e =>
            r = Throw e /\
            trace w' = EGenerateMessageResponse ctx :: evs ++ trace w
        end).
Proof.
  intros Hdry.
  pose proof (handleCast_stages E self agent cast memory thread w) as Hd.
  pose proof (handleCast_stages E (set_dry_run false self) agent cast memory
                thread w) as Hl.
  destruct (handleCast E self agent cast memory thread w) as [r w'].
  destruct (handleCast E (set_dry_run false self) agent cast memory thread w)
    as [rl live].
  cbv zeta. unfold snd.
  destruct (fid (profile cast) =? fid agent).
  { revert Hd Hl. run_m. intros [= -> ->] [= -> ->].
    split; [reflexivity|]. split; [left; reflexivity|].
    split; [solve_grows|]. split; [intros H; exact H|].
    rewrite (new_events_grows w _ [ELog (LogSkipSelf (hash cast))]) by reflexivity.
    intros (ctx & [H|[]]). discriminate H. }
  destruct (negb (truthy (c_text (m_content memory)))).
  { revert Hd Hl. run_m. intros [= -> ->] [= -> ->].
    split; [reflexivity|]. split; [left; reflexivity|].
    split; [solve_grows|]. split; [intros H; exact H|].
    rewrite (new_events_grows w _ [ELog (LogSkipNoText (hash cast))]) by reflexivity.
    intros (ctx & [H|[]]). discriminate H. }
  unfold bind in Hd, Hl. rewrite respond_stage_dry_flag in Hl.
  pose proof (respond_stage_spec E self agent cast memory thread w) as Hs.
  destruct (respond_stage E self agent cast memory thread w)
    as [[[state rc]|e] w1].
  - destruct Hs as (Hp & Hst & Hfound & ctx0 & evs & g0 & Htr & Hctx & Hgen & Hrc).
    assert (Hst' : store w1 = store w \/
              store w1 = store w ++ [inbound_record E self cast (m_roomId memory)])
      by (destruct Hst as [Hst|[_ Hst]]; [left|right]; exact Hst).
    assert (Htext : c_text rc = c_text g0) by (subst rc; reflexivity).
    unfold after_generation in Hd. rewrite Hdry, Htext in Hd.
    destruct (truthy (c_text g0)) eqn:Htruthy; simpl in Hd.
    + revert Hd. run_m. intros [= -> ->].
      cbn [lastProcessedCasts store trace record_event].
      split; [exact Hp|]. split; [exact Hst'|].
      assert (Hnew : ELog (LogDryRun (hash cast) (c_text g0)) :: trace w1 =
                (ELog (LogDryRun (hash cast) (c_text g0))
                 :: EGenerateMessageResponse ctx0 :: evs) ++ trace w)
        by (rewrite Htr; reflexivity).
      split.
      { eexists. split; [exact Hnew|].
        simpl. apply context_events_no_dispatch, Hctx. }
      rewrite (new_events_grows w
                 (record_event (ELog (LogDryRun (hash cast) (c_text g0))) w1)
                 _ Hnew).
      split; [intros _; exists ctx0; right; left; reflexivity|].
      intros _. exists ctx0, evs. rewrite Hgen, Htruthy.
      split; [reflexivity|]. rewrite Htr. reflexivity.
    + injection Hd as -> ->.
      split; [exact Hp|]. split; [exact Hst'|].
      assert (Hnew : trace w1 = (EGenerateMessageResponse ctx0 :: evs) ++ trace w)
        by (rewrite Htr; reflexivity).
      split.
      { eexists. split; [exact Hnew|].
        simpl. apply context_events_no_dispatch, Hctx. }
      rewrite (new_events_grows w _ _ Hnew).
      split; [intros _; exists ctx0; left; reflexivity|].
      intros _. exists ctx0, evs. rewrite Hgen, Htruthy.
      split; [reflexivity|]. rewrite Htr. reflexivity.
  - injection Hd as -> ->. injection Hl as -> ->.
    destruct Hs as (Hp & Hst & Hthrow).
    assert (Hst' : store w1 = store w \/
              store w1 = store w ++ [inbound_record E self cast (m_roomId memory)])
      by (destruct Hst as [Hst|[_ Hst]]; [left|right]; exact Hst).
    split; [exact Hp|]. split; [exact Hst'|].
    destruct Hthrow as [(evs & Htr & Hctx)|(ctx0 & evs & Htr & Hctx & Hgen)].
    + split; [exists evs; split;
               [exact Htr|apply context_events_no_dispatch, Hctx]|].
      split; [intros H; exact H|].
      rewrite (new_events_grows w _ _ Htr).
      intros H. exfalso. exact (context_events_no_generation _ Hctx H).
    + assert (Hnew : trace w1 = (EGenerateMessageResponse ctx0 :: evs) ++ trace w)
        by (rewrite Htr; reflexivity).
      split.
      { eexists. split; [exact Hnew|].
        simpl. apply context_events_no_dispatch, Hctx. }
      split; [intros H; exact H|].
      intros _. exists ctx0, evs. rewrite Hgen.
      split; [reflexivity|exact Htr].
Qed.

(** When the collaborators of the context stage answer, the stage gets as
    far as calling the generation. *)
Lemma respond_stage_calls_generation E self agent cast memory thread w :
  context_stage_answers E ->
  exists ctx evs,
    trace (snd (respond_stage E self agent cast memory thread w)) =
      EGenerateMessageResponse ctx :: evs ++ trace w.
Proof.
  intros (Htl & Hcs & Hsr). unfold respond_stage. run_m.
  match goal with
  | |- context [getTimeline E ?a ?b ?tr] => destruct (Htl a b tr) as [tl ->]
  end.
  match goal with
  | |- context [composeState E ?m ?u ?t ?c ?f ?tr] =>
      destruct (Hcs m u t c f tr) as [st ->]
  end.
  destruct (store_lookup _ (store w)) as [m|]; run_m;
    match goal with
    | |- context [generateShouldRespond E ?c ?tr] =>
        destruct (Hsr c tr) as [v ->]
    end;
    destruct (generateMessageResponse E _ _) as [g|e];
    eexists _, _; cbn [snd trace record_event set_store];
    (f_equal; repeat (eapply ext_cons); apply ext_nil).
Qed.

(** The dry run of a cast of another author that has a text, with a
    context stage that answers: the generation is called, once, and when
    it answers with a text the dry-run line is the last thing logged. *)
Lemma dry_run_reaches_generation E self agent cast memory thread w :
  dry_run self = true ->
  fid (profile cast) <> fid agent ->
  c_text (m_content memory) <> "" ->
  context_stage_answers E ->
  let '(r, w') := handleCast E self agent cast memory thread w in
  exists ctx evs,
    forallb context_event evs = true /\
    match generateMessageResponse E ctx (evs ++ trace w) with
    | Ok g =>
        r = Ok None /\
        trace w' =
          (if truthy (c_text g)
           then [ELog (LogDryRun (hash cast) (c_text g))]
           else [])
          ++ EGenerateMessageResponse ctx :: evs ++ trace w
    | Throw e =>
        r = Throw e /\
        trace w' = EGenerateMessageResponse ctx :: evs ++ trace w
    end.
Proof.
  intros Hdry Hfid Htext Hans.
  pose proof (handleCast_stages E self agent cast memory thread w) as Hd.
  destruct (handleCast E self agent cast memory thread w) as [r w'].
  destruct (Z.eqb_spec (fid (profile cast)) (fid agent)) as [Heq|_];
    [contradiction (Hfid Heq)|].
  assert (Htruthy : truthy (c_text (m_content memory)) = true).
  { unfold truthy.
    destruct (String.eqb_spec (c_text (m_content memory)) "") as [Hempty|_];
      [contradiction (Htext Hempty)|reflexivity]. }
  rewrite Htruthy in Hd. cbn [negb] in Hd. unfold bind in Hd.
  pose proof (respond_stage_spec E self agent cast memory thread w) as Hs.
  pose proof (respond_stage_calls_generation E self agent cast memory thread w
                Hans) as (ctx1 & evs1 & Hcall).
  destruct (respond_stage E self agent cast memory thread w)
    as [[[state rc]|e] w1]; unfold snd in Hcall.
  - destruct Hs as (_ & _ & _ & ctx0 & evs & g0 & Htr & Hctx & Hgen & Hrc).
    assert (Hrc_text : c_text rc = c_text g0) by (subst rc; reflexivity).
    exists ctx0, evs. split; [exact Hctx|]. rewrite Hgen.
    unfold after_generation in Hd. rewrite Hdry, Hrc_text in Hd.
    destruct (truthy (c_text g0)); simpl in Hd.
    + revert Hd. run_m. intros [= -> ->].
      split; [reflexivity|]. cbn [trace record_event]. rewrite Htr. reflexivity.
    + injection Hd as -> ->. split; [reflexivity|exact Htr].
  - injection Hd as -> ->.
    destruct Hs as (_ & _ & [(evs & Htr & Hctx)|(ctx0 & evs & Htr & Hctx & Hgen)]).
    + exfalso. rewrite Htr in Hcall.
      change (evs ++ trace w = (EGenerateMessageResponse ctx1 :: evs1) ++ trace w)
        in Hcall.
      apply app_inv_tail in Hcall. subst evs. discriminate Hctx.
    + exists ctx0, evs. split; [exact Hctx|]. rewrite Hgen.
      split; [reflexivity|exact Htr].
Qed.

(** C6.  With the dry-run flag on, [handleCast] never calls [sendCast],
    leaves [lastProcessedCasts] alone and writes at most the inbound record
    to the store.  The generation still runs: for a cast of another author
    that has a text, when the timeline, the state composition and the
    classifier answer, the generation is called, once, after calls of the
    context stage only; when it answers with a text, the line "Dry run:
    would have responded ..." with the cast hash and that text is the next
    and last thing that happens and [handleCast] returns; when it throws,
    so does [handleCast].  The flag does not stand in the way of the
    generation either: if the same call with the flag off invokes it, so
    does the dry run. *)
Theorem dry_run_generates_but_never_dispatches
    E self agent cast memory thread w :
  dry_run self = true ->
  let '(r, w') := handleCast E self agent cast memory thread w in
  let live :=
    snd (handleCast E (set_dry_run false self) agent cast memory thread w) in
  lastProcessedCasts w' = lastProcessedCasts w
  /\ (store w' = store w \/
      store w' = store w ++ [inbound_record E self cast (m_roomId memory)])
  /\ (exists evs, trace w' = evs ++ trace w /\ forallb no_dispatch evs = true)
  /\ (generation_called (new_events w live) ->
      generation_called (new_events w w'))
  /\ (generation_called (new_events w w') ->
      exists ctx evs,
        match generateMessageResponse E ctx (evs ++ trace w) with
        | Ok g =>
            r = Ok None /\
            trace w' =
              (if truthy (c_text g)
               then [ELog (LogDryRun (hash cast) (c_text g))]
               else [])
              ++ EGenerateMessageResponse ctx :: evs ++ trace w
        | Throw e =>
            r = Throw e /\
            trace w' = EGenerateMessageResponse ctx :: evs ++ trace w
        end)
  /\ (fid (profile cast) <> fid agent ->
      c_text (m_content memory) <> "" ->
      context_stage_answers E ->
      exists ctx evs,
        forallb context_event evs = true /\
        match generateMessageResponse E ctx (evs ++ trace w) with
        | Ok g =>
            r = Ok None /\
            trace w' =
              (if truthy (c_text g)
               then [ELog (LogDryRun (hash cast) (c_text g))]
               else [])
              ++ EGenerateMessageResponse ctx :: evs ++ trace w
        | Throw e =>
            r = Throw e /\
            trace w' = EGenerateMessageResponse ctx :: evs ++ trace w
        end).
Proof.
  intros Hdry.
  pose proof (dry_run_containment E self agent cast memory thread w Hdry)
    as Hcontained.
  pose proof (fun Hfid Htext Hans =>
                dry_run_reaches_generation E self agent cast memory thread w
                  Hdry Hfid Htext Hans) as Hreached.
  destruct (handleCast E self agent cast memory thread w) as [r w'].
  cbv zeta in Hcontained. cbv zeta.
  destruct Hcontained as (Hp & Hst & Hnd & Hlive & Hlog).
  split; [exact Hp|]. split; [exact Hst|]. split; [exact Hnd|].
  split; [exact Hlive|]. split; [exact Hlog|exact Hreached].
Qed.

(** ** One pass over a candidate the store does not know yet *)

Section FreshPass.

Variable E : Env.
Variable self : Manager.

(** The gate, lines 184-194: a cast whose record exists is skipped. *)
Lemma process_candidate_known agent cast w m :
  store_lookup (memory_id E self cast) (store w) = Some m ->
  process_candidate E self agent cast w =
    (Ok tt, record_event (EGetMemoryById (memory_id E self cast)) w).
Proof.
  intros Hm. unfold process_candidate. run_m.
  fold (memory_id E self cast). rewrite Hm. reflexivity.
Qed.

(** A pass either ends before the dispatch, having written at most the
    inbound record, or reaches the dispatch stage with the inbound record
    in the store. *)
Lemma process_candidate_fresh agent cast w :
  store_lookup (memory_id E self cast) (store w) = None ->
  let w1 := snd (process_candidate E self agent cast w) in
  (lastProcessedCasts w1 = lastProcessedCasts w /\
   (store w1 = store w \/
    store w1 = store w ++ [inbound_record E self cast (room_of E self cast)]) /\
   exists evs, trace w1 = evs ++ trace w /\ forallb no_dispatch evs = true)
  \/
  (exists wm memory state rc,
     lastProcessedCasts wm = lastProcessedCasts w /\
     store wm = store w ++ [inbound_record E self cast (room_of E self cast)] /\
     (exists evs, trace wm = evs ++ trace w /\ forallb no_dispatch evs = true) /\
     w1 = snd (dispatch_stage E self cast memory state rc wm)).
Proof.
  intros Hnone. unfold process_candidate.
  set (memory := mkMemory None _ _ _ _).
  unfold bind at 1, getMemoryById. run_m.
  fold (memory_id E self cast). rewrite Hnone.
  destruct (ensureConnection E _ _ _ _ _ _) as [[]|e].
  2:{ left. split; [reflexivity|]. split; [left; reflexivity|solve_grows]. }
  destruct (buildConversationThread E _ _) as [thread|e].
  2:{ left. split; [reflexivity|]. split; [left; reflexivity|solve_grows]. }
  rewrite handleCast_stages.
  destruct (fid (profile cast) =? fid agent).
  { run_m. left. split; [reflexivity|]. split; [left; reflexivity|solve_grows]. }
  destruct (negb (truthy (c_text (m_content memory)))).
  { run_m. left. split; [reflexivity|]. split; [left; reflexivity|solve_grows]. }
  unfold bind.
  match goal with
  | |- context [respond_stage E self agent cast memory thread ?x] =>
      set (w0 := x)
  end.
  assert (Hw0 : grows_by no_dispatch w w0) by (subst w0; solve_grows).
  assert (Hs0 : store w0 = store w) by reflexivity.
  assert (Hp0 : lastProcessedCasts w0 = lastProcessedCasts w) by reflexivity.
  pose proof (respond_stage_spec E self agent cast memory thread w0) as Hs.
  clearbody w0.
  destruct (respond_stage E self agent cast memory thread w0)
    as [[[state rc]|e] wm].
  - destruct Hs as (Hp & Hst & Hfound & ctx0 & evs & g0 & Htr & Hctx & Hgen & Hrc).
    rewrite Hs0 in Hst. rewrite Hp0 in Hp.
    assert (Hstore : store wm =
              store w ++ [inbound_record E self cast (room_of E self cast)]).
    { destruct Hst as [Hst|[_ Hst]]; [|exact Hst].
      rewrite Hst, Hnone in Hfound. contradiction. }
    assert (Hmid : grows_by no_dispatch w wm).
    { eapply grows_by_trans; [exact Hw0|].
      exists (EGenerateMessageResponse ctx0 :: evs). split; [exact Htr|].
      simpl. apply context_events_no_dispatch, Hctx. }
    unfold after_generation.
    destruct (negb (truthy (c_text rc))).
    { left. simpl. split; [exact Hp|]. split; [right; exact Hstore|exact Hmid]. }
    destruct (dry_run self).
    { left. run_m. simpl. split; [exact Hp|]. split; [right; exact Hstore|].
      destruct Hmid as (evs' & Hevs' & Hnd).
      exists (ELog (LogDryRun (hash cast) (c_text rc)) :: evs').
      split; [rewrite Hevs'; reflexivity|exact Hnd]. }
    right. exists wm, memory, state, rc.
    split; [exact Hp|]. split; [exact Hstore|]. split; [exact Hmid|].
    destruct (dispatch_stage E self cast memory state rc wm) as [[o|e] w1];
      reflexivity.
  - left. destruct Hs as (Hp & Hst & Hthrow).
    rewrite Hs0 in Hst. rewrite Hp0 in Hp. simpl.
    split; [exact Hp|].
    split; [destruct Hst as [Hst|[_ Hst]]; [left|right]; exact Hst|].
    eapply grows_by_trans; [exact Hw0|].
    destruct Hthrow as [(evs & Htr & Hctx)|(ctx0 & evs & Htr & Hctx & Hgen)].
    + exists evs. split; [exact Htr|apply context_events_no_dispatch, Hctx].
    + exists (EGenerateMessageResponse ctx0 :: evs). split; [exact Htr|].
      simpl. apply context_events_no_dispatch, Hctx.
Qed.

End FreshPass.

(** ** The dispatch stage under assumptions on the collaborators *)

Lemma count_events_app p evs evs' :
  count_events p (evs ++ evs') =
  (count_events p evs + count_events p evs')%nat.
Proof. unfold count_events. rewrite List.filter_app, length_app. reflexivity. Qed.

Lemma count_no_dispatch evs :
  forallb no_dispatch evs = true -> count_events is_dispatch evs = 0%nat.
Proof.
  unfold count_events, no_dispatch.
  induction evs as [|ev evs IH]; simpl; [reflexivity|].
  intros H. apply andb_prop in H as [Hev H].
  destruct (is_dispatch ev); [discriminate Hev|exact (IH H)].
Qed.

Lemma no_dispatch_not_in evs a :
  forallb no_dispatch evs = true -> ~ In (ESendCast a) evs.
Proof.
  intros Hall Hin. rewrite forallb_forall in Hall.
  specialize (Hall _ Hin). discriminate Hall.
Qed.

Lemma no_dispatch_created ms :
  forallb no_dispatch (rev (map ECreateMemory ms)) = true.
Proof.
  rewrite forallb_forall. intros ev Hin. apply in_rev in Hin.
  apply in_map_iff in Hin as (m & <- & _). reflexivity.
Qed.

Section DispatchStage.

Variable E : Env.
Variable self : Manager.

Lemma callback_gateway_down cast roomId memoryId content :
  gateway_down E ->
  steps_in (quiet_step any_event)
    (callback E self cast roomId memoryId content).
Proof.
  intros Hdown w. rewrite callback_unfold. cbv zeta.
  destruct (Hdown (send_args self cast roomId
                     (with_reply_target memoryId content)) (trace w))
    as [e ->].
  split; [solve_grows|split; reflexivity].
Qed.

Lemma dispatch_stage_gateway_down cast memory state rc :
  gateway_down E ->
  steps_in (quiet_step any_event) (dispatch_stage E self cast memory state rc).
Proof.
  intros Hdown.
  pose proof (quiet_step_refl any_event) as Hr.
  pose proof (quiet_step_trans any_event) as Ht.
  pose proof (quiet_step_event any_event) as He.
  unfold dispatch_stage, run_processActions. steps.
  all: try reflexivity.
  all: apply callback_gateway_down, Hdown.
Qed.

Lemma run_processActions_quiet message responses newState cb w :
  quiet_pipeline E ->
  run_processActions E message responses newState cb w =
    (match snd (processActions E message responses newState (trace w)) with
     | Ok _ => Ok tt
     | Throw e => Throw e
     end,
     record_event (EProcessActions message responses newState) w).
Proof.
  intros Hq. unfold run_processActions. run_m.
  rewrite (Hq message responses newState (trace w)). simpl.
  destruct (snd (processActions E message responses newState (trace w)));
    reflexivity.
Qed.

(** What the callback leaves: the records of the dispatch at the end of the
    store, one [sendCast] in the trace. *)
Lemma callback_summary cast roomId memoryId content w :
  dispatch_ids_differ E (memory_id E self cast) ->
  let w1 := snd (callback E self cast roomId memoryId content w) in
  exists outs evs a,
    store w1 = store w ++ outs /\
    Forall (fun m => m_id m <> Some (memory_id E self cast)) outs /\
    trace w1 = evs ++ ESendCast a :: trace w /\
    forallb no_dispatch evs = true.
Proof.
  intros Hids. rewrite callback_unfold. cbv zeta.
  set (a := send_args self cast roomId (with_reply_target memoryId content)).
  pose proof (Hids a (trace w)) as Hrs.
  destruct (sendCast E a (trace w)) as [[|first rest]|e].
  - exists [], [ELog (LogSendError (TypeError "results[0] is undefined"))], a.
    simpl. rewrite app_nil_r. repeat split. constructor.
  - specialize (Hrs _ eq_refl).
    eexists _, _, a. unfold snd.
    rewrite store_all_store, store_all_trace. simpl.
    split; [reflexivity|]. split; [|split; [reflexivity|]].
    + inversion Hrs as [|? ? Hfirst Hrest]; subst.
      constructor; [exact Hfirst|].
      rewrite Forall_map. exact Hrest.
    + apply (no_dispatch_created (_ :: _)).
  - exists [], [ELog (LogSendError e)], a.
    simpl. rewrite app_nil_r. repeat split. constructor.
Qed.

Lemma dispatch_stage_quiet cast memory state rc w :
  quiet_pipeline E ->
  dispatch_ids_differ E (memory_id E self cast) ->
  let w1 := snd (dispatch_stage E self cast memory state rc w) in
  exists outs evs,
    store w1 = store w ++ outs /\
    Forall (fun m => m_id m <> Some (memory_id E self cast)) outs /\
    trace w1 = evs ++ trace w /\
    count_events is_dispatch evs = 1%nat.
Proof.
  intros Hq Hids.
  destruct (dispatch_stage E self cast memory state rc w) as [r w1] eqn:Hrun.
  cbv zeta. unfold snd. revert Hrun.
  unfold dispatch_stage. cbv zeta. rewrite bind_run.
  pose proof (callback_summary cast (m_roomId memory)
                (castUuid E (agentId self) (hash cast)) rc w Hids) as Hcb.
  destruct (callback E self cast (m_roomId memory)
              (castUuid E (agentId self) (hash cast)) rc w) as [[rm|e] wc];
    cbv zeta in Hcb; unfold snd in Hcb;
    destruct Hcb as (outs & evs & a & Hst & Hout & Htr & Hnd).
  2:{ intros [= <- <-]. exists outs, (evs ++ [ESendCast a]).
      split; [exact Hst|]. split; [exact Hout|].
      split; [rewrite Htr, <- app_assoc; reflexivity|].
      rewrite count_events_app, (count_no_dispatch _ Hnd). reflexivity. }
  rewrite bind_run. unfold call at 1.
  destruct (updateRecentMessageState E state (trace wc)) as [newState|e].
  2:{ intros [= <- <-].
      exists outs, ([EUpdateRecentMessageState state] ++ evs ++ [ESendCast a]).
      split; [exact Hst|]. split; [exact Hout|].
      split; [simpl; rewrite Htr, <- app_assoc; reflexivity|].
      rewrite !count_events_app, (count_no_dispatch _ Hnd). reflexivity. }
  rewrite bind_run, run_processActions_quiet by exact Hq.
  match goal with
  | |- context [EProcessActions ?m ?rs ?s] =>
      intros Hrun;
      exists outs, ([EProcessActions m rs s; EUpdateRecentMessageState state]
                    ++ evs ++ [ESendCast a])
  end.
  assert (Hw1 : w1 = record_event (EProcessActions
                       (mkMemory (m_id memory) (m_userId memory)
                          (m_agentId memory) (m_roomId memory)
                          (mkContent (c_text (m_content memory))
                             (c_inReplyTo (m_content memory))
                             (c_action (m_content memory)) (Some cast)))
                       rm newState)
                     (record_event (EUpdateRecentMessageState state) wc)).
  { destruct (snd (processActions E _ _ _ _)) as [[]|e];
      injection Hrun as _ <-; reflexivity. }
  subst w1. split; [exact Hst|]. split; [exact Hout|].
  split; [simpl; rewrite Htr, <- app_assoc; reflexivity|].
  rewrite !count_events_app, (count_no_dispatch _ Hnd). reflexivity.
Qed.

End DispatchStage.

(** ** Retry after a failed dispatch, and idempotency *)

Lemma store_lookup_inbound E self cast roomId ms :
  store_lookup (memory_id E self cast) ms = None ->
  store_lookup (memory_id E self cast) (ms ++ [inbound_record E self cast roomId])
  = Some (inbound_record E self cast roomId).
Proof.
  intros Hnone. rewrite store_lookup_app, Hnone.
  unfold store_lookup. simpl.
  rewrite bool_decide_eq_true_2 by reflexivity. reflexivity.
Qed.

(** C1, amended.  While every [sendCast] throws, a pass over a candidate
    leaves [lastProcessedCasts] as it was and writes at most the inbound
    record: no outbound record is created.  If the pass did attempt the
    dispatch, the inbound record is in the store, and from then on the gate
    skips the candidate: with that store, whatever was appended to it
    since, a later pass (whatever the collaborators then answer, the
    gateway included) reads the record and ends, so the post is not taken
    through generation again. *)
Theorem failed_dispatch_blocks_retry E self agent cast w :
  gateway_down E ->
  let w1 := snd (process_candidate E self agent cast w) in
  lastProcessedCasts w1 = lastProcessedCasts w /\
  (store w1 = store w \/
   store w1 = store w ++ [inbound_record E self cast (room_of E self cast)]) /\
  ((exists a, In (ESendCast a) (new_events w w1)) ->
   store w1 = store w ++ [inbound_record E self cast (room_of E self cast)] /\
   forall E2 agent2 w2 later,
     castUuid E2 (agentId self) (hash cast) =
       castUuid E (agentId self) (hash cast) ->
     store w2 = store w1 ++ later ->
     process_candidate E2 self agent2 cast w2 =
       (Ok tt, record_event (EGetMemoryById (memory_id E self cast)) w2)).
Proof.
  intros Hdown. cbv zeta.
  destruct (store_lookup (memory_id E self cast) (store w)) as [m|] eqn:Hlook.
  - rewrite (process_candidate_known E self agent cast w m Hlook). unfold snd.
    split; [reflexivity|]. split; [left; reflexivity|].
    rewrite (new_events_grows w _ [EGetMemoryById (memory_id E self cast)])
      by reflexivity.
    intros (a & [H|[]]). discriminate H.
  - destruct (process_candidate_fresh E self agent cast w Hlook)
      as [(Hp & Hst & evs & Htr & Hnd)
         |(wm & memory & state & rc & Hp & Hst & (evs & Htr & Hnd) & Hw1)].
    + split; [exact Hp|]. split; [exact Hst|].
      rewrite (new_events_grows w _ evs Htr).
      intros (a & Hin). exfalso. exact (no_dispatch_not_in _ _ Hnd Hin).
    + rewrite Hw1.
      destruct (dispatch_stage_gateway_down E self cast memory state rc Hdown wm)
        as (_ & Hs2 & Hp2).
      split; [rewrite Hp2; exact Hp|].
      split; [right; rewrite Hs2; exact Hst|].
      intros _. split; [rewrite Hs2; exact Hst|].
      intros E2 agent2 w2 later Hid Hw2.
      assert (Hmid : memory_id E2 self cast = memory_id E self cast) by exact Hid.
      rewrite <- Hmid.
      apply (process_candidate_known E2 self agent2 cast w2
               (inbound_record E self cast (room_of E self cast))).
      rewrite Hmid, Hw2, Hs2, Hst, store_lookup_app.
      rewrite (store_lookup_inbound E self cast _ _ Hlook). reflexivity.
Qed.

Lemma failed_dispatch_blocks_retry_witness :
  let E := Scenario.env [Scenario.post] [] 5000 Scenario.reply
             (Throw (Failure "gateway down")) in
  let self := Scenario.manager false [] in
  gateway_down E /\
  store (snd (process_candidate E self Scenario.agent Scenario.post Scenario.w0))
  = [inbound_record E self Scenario.post (room_of E self Scenario.post)].
Proof.
  cbv zeta.
  assert (Hdown : gateway_down
            (Scenario.env [Scenario.post] [] 5000 Scenario.reply
               (Throw (Failure "gateway down"))))
    by (intros a tr; eexists; reflexivity).
  split; [exact Hdown|].
  pose proof (failed_dispatch_blocks_retry
                (Scenario.env [Scenario.post] [] 5000 Scenario.reply
                   (Throw (Failure "gateway down")))
                (Scenario.manager false []) Scenario.agent Scenario.post
                Scenario.w0 Hdown) as (_ & _ & H).
  apply H. eexists. vm_compute. do 3 right. left. reflexivity.
Defined.

(** C1 as stated fails: the cast of the mention feed is answered in a first
    cycle whose dispatch throws, which leaves the inbound record alone in
    the store and [lastProcessedCasts] empty; in the next cycle, with the
    gateway up again, the gate reads that record and the generation is not
    invoked for the cast. *)
Lemma retry_after_failed_dispatch_refuted :
  let self := Scenario.manager false [] in
  let E1 := Scenario.env [Scenario.post] [] 5000 Scenario.reply
              (Throw (Failure "gateway down")) in
  let E2 := Scenario.env [Scenario.post] [] 5000 Scenario.reply
              (Ok [Scenario.sent "0xc1" "all good here"]) in
  let w1 := snd (handleInteractions E1 self Scenario.w0) in
  let w2 := snd (handleInteractions E2 self w1) in
  In (ELog (LogSendError (Failure "gateway down"))) (trace w1) /\
  store w1 = [inbound_record E1 self Scenario.post (room_of E1 self Scenario.post)] /\
  elements (lastProcessedCasts w1) = [] /\
  In (EGetMemoryById (memory_id E2 self Scenario.post)) (new_events w1 w2) /\
  ~ generation_called (new_events w1 w2).
Proof.
  cbv zeta.
  split; [vm_compute; tauto|].
  split; [vm_compute; reflexivity|].
  split; [vm_compute; reflexivity|].
  split; [vm_compute; tauto|].
  apply no_generation_not_called. vm_compute. reflexivity.
Qed.

Lemma records_with_id_app id ms ms' :
  records_with_id id (ms ++ ms') =
  records_with_id id ms ++ records_with_id id ms'.
Proof. unfold records_with_id. apply List.filter_app. Qed.

Lemma records_with_id_inbound E self cast roomId :
  records_with_id (memory_id E self cast) [inbound_record E self cast roomId]
  = [inbound_record E self cast roomId].
Proof.
  unfold records_with_id. simpl.
  rewrite bool_decide_eq_true_2 by reflexivity. reflexivity.
Qed.

Lemma store_lookup_records id ms :
  store_lookup id ms = head (records_with_id id ms).
Proof.
  unfold store_lookup, records_with_id.
  induction ms as [|m ms IH]; simpl; [reflexivity|].
  destruct (bool_decide (m_id m = Some id)); [reflexivity|exact IH].
Qed.

(** A pass over a candidate the store does not know: what it appends to
    the store and how often it dispatches. *)
Lemma fresh_pass_summary E self agent cast w :
  quiet_pipeline E ->
  dispatch_ids_differ E (memory_id E self cast) ->
  store_lookup (memory_id E self cast) (store w) = None ->
  let w1 := snd (process_candidate E self agent cast w) in
  exists ins outs evs,
    store w1 = store w ++ ins ++ outs /\
    (ins = [] /\ outs = [] /\ count_events is_dispatch evs = 0%nat \/
     ins = [inbound_record E self cast (room_of E self cast)]) /\
    Forall (fun m => m_id m <> Some (memory_id E self cast)) outs /\
    trace w1 = evs ++ trace w /\
    (count_events is_dispatch evs <= 1)%nat.
Proof.
  intros Hq Hids Hlook.
  destruct (process_candidate_fresh E self agent cast w Hlook)
    as [(Hp & Hst & evs & Htr & Hnd)
       |(wm & memory & state & rc & Hp & Hst & (evs & Htr & Hnd) & Hw1)].
  - destruct Hst as [Hst|Hst].
    + exists [], [], evs. rewrite Hst, !app_nil_r.
      split; [reflexivity|].
      split; [left; repeat split; apply count_no_dispatch, Hnd|].
      split; [constructor|]. split; [exact Htr|].
      rewrite (count_no_dispatch _ Hnd). lia.
    + exists [inbound_record E self cast (room_of E self cast)], [], evs.
      rewrite Hst. split; [reflexivity|]. split; [right; reflexivity|].
      split; [constructor|]. split; [exact Htr|].
      rewrite (count_no_dispatch _ Hnd). lia.
  - cbv zeta. rewrite Hw1.
    destruct (dispatch_stage_quiet E self cast memory state rc wm Hq Hids)
      as (outs & evs2 & Hst2 & Hout & Htr2 & Hcount).
    exists [inbound_record E self cast (room_of E self cast)], outs, (evs2 ++ evs).
    split; [rewrite Hst2, Hst, <- app_assoc; reflexivity|].
    split; [right; reflexivity|]. split; [exact Hout|].
    split; [rewrite Htr2, Htr, app_assoc; reflexivity|].
    rewrite count_events_app, Hcount, (count_no_dispatch _ Hnd). lia.
Qed.

(** C3.  A candidate whose memory id has a record in the store is skipped
    by the gate: the pass reads the record and ends, before any context is
    built or the generation called.  Consequently, for a post the store did
    not know, two passes that share the store (the second starting from
    any world whose store is the one the first pass left, followed by
    whatever other posts have added since) leave at most one record
    under the post's memory id, and exactly one, the inbound record, as soon
    as either pass has recorded the post; and the two passes together make
    at most one dispatch.  Once the first pass has recorded the post, the
    second is the skip.  The action pipeline is taken not to call the
    callback again, and the dispatch to file its records under ids of their
    own. *)
Theorem dedup_gate_makes_processing_idempotent E self agent cast w :
  quiet_pipeline E ->
  dispatch_ids_differ E (memory_id E self cast) ->
  store_lookup (memory_id E self cast) (store w) = None ->
  (forall agent' w' m,
     store_lookup (memory_id E self cast) (store w') = Some m ->
     process_candidate E self agent' cast w' =
       (Ok tt, record_event (EGetMemoryById (memory_id E self cast)) w'))
  /\
  let w1 := snd (process_candidate E self agent cast w) in
  forall agent2 w2 between,
    store w2 = store w1 ++ between ->
    Forall (fun m => m_id m <> Some (memory_id E self cast)) between ->
    let w3 := snd (process_candidate E self agent2 cast w2) in
    (length (records_with_id (memory_id E self cast) (store w3)) <= 1)%nat /\
    (store_lookup (memory_id E self cast) (store w3) <> None ->
     records_with_id (memory_id E self cast) (store w3) =
       [inbound_record E self cast (room_of E self cast)]) /\
    (count_events is_dispatch (new_events w w1) +
     count_events is_dispatch (new_events w2 w3) <= 1)%nat /\
    (store_lookup (memory_id E self cast) (store w1) <> None ->
     process_candidate E self agent2 cast w2 =
       (Ok tt, record_event (EGetMemoryById (memory_id E self cast)) w2)).
Proof.
  intros Hq Hids Hlook. split.
  { intros agent' w' m Hm. exact (process_candidate_known E self agent' cast w' m Hm). }
  cbv zeta. intros agent2 w2 between Hw2 Hbetween.
  set (id := memory_id E self cast) in *.
  pose proof (records_with_id_other _ _ Hbetween) as Hrecb.
  set (inbound := inbound_record E self cast (room_of E self cast)) in *.
  pose proof (records_with_id_none _ _ Hlook) as Hrec0.
  destruct (fresh_pass_summary E self agent cast w Hq Hids Hlook)
    as (ins & outs & evs & Hst & Hins & Hout & Htr & Hcount).
  fold id inbound in Hst, Hins, Hout.
  rewrite (new_events_grows w _ evs Htr).
  destruct Hins as [(-> & -> & Hzero)| ->].
  - (* the first pass wrote nothing *)
    rewrite !app_nil_r in Hst.
    assert (Hlook2 : store_lookup id (store w2) = None).
    { rewrite store_lookup_records, Hw2, Hst, records_with_id_app, Hrec0, Hrecb.
      reflexivity. }
    destruct (fresh_pass_summary E self agent2 cast w2 Hq Hids Hlook2)
      as (ins2 & outs2 & evs2 & Hst2 & Hins2 & Hout2 & Htr2 & Hcount2).
    fold id inbound in Hst2, Hins2, Hout2.
    rewrite (new_events_grows w2 _ evs2 Htr2).
    assert (Hrec : records_with_id id
                     (store (snd (process_candidate E self agent2 cast w2))) =
                   records_with_id id ins2).
    { rewrite Hst2, Hw2, Hst, !records_with_id_app, Hrec0, Hrecb.
      rewrite (records_with_id_other _ _ Hout2), !app_nil_r. reflexivity. }
    split; [|split; [|split]].
    + rewrite Hrec. destruct Hins2 as [(-> & _)| ->]; [simpl; lia|].
      unfold id, inbound. rewrite records_with_id_inbound. simpl. lia.
    + rewrite store_lookup_records, Hrec.
      destruct Hins2 as [(-> & _)| ->]; [intros H; contradiction H; reflexivity|].
      intros _. apply records_with_id_inbound.
    + rewrite Hzero. simpl. exact Hcount2.
    + rewrite Hst, Hlook. intros H. contradiction H. reflexivity.
  - (* the first pass recorded the post *)
    assert (Hlook2 : store_lookup id (store w2) = Some inbound).
    { rewrite Hw2, Hst, store_lookup_app.
      rewrite (app_assoc (store w) [inbound] outs), store_lookup_app.
      unfold id, inbound. rewrite (store_lookup_inbound E self cast _ _ Hlook).
      reflexivity. }
    rewrite (process_candidate_known E self agent2 cast w2 inbound Hlook2).
    unfold snd.
    rewrite (new_events_grows w2 _ [EGetMemoryById id]) by reflexivity.
    fold id. cbn [store record_event].
    assert (Hrec : records_with_id id (store w2) = [inbound]).
    { rewrite Hw2, Hst, !records_with_id_app, Hrec0, Hrecb.
      rewrite (records_with_id_other _ _ Hout), !app_nil_r.
      apply records_with_id_inbound. }
    split; [rewrite Hrec; simpl; lia|].
    split; [intros _; exact Hrec|].
    split; [|intros _; reflexivity].
    assert (count_events is_dispatch [EGetMemoryById id] = 0%nat) as ->
      by reflexivity.
    lia.
Qed.

(** ** The theorems at work on the concrete feed *)

Lemma dedup_gate_makes_processing_idempotent_witness :
  let E := Scenario.env [Scenario.post] [] 5000 Scenario.reply
             (Ok [Scenario.sent "0xc1" "all good here"]) in
  let self := Scenario.manager false [] in
  let w1 := snd (process_candidate E self Scenario.agent Scenario.post Scenario.w0) in
  let w3 := snd (process_candidate E self Scenario.agent Scenario.post w1) in
  quiet_pipeline E /\
  dispatch_ids_differ E (memory_id E self Scenario.post) /\
  store_lookup (memory_id E self Scenario.post) (store Scenario.w0) = None /\
  records_with_id (memory_id E self Scenario.post) (store w3) =
    [inbound_record E self Scenario.post (room_of E self Scenario.post)] /\
  (count_events is_dispatch (new_events Scenario.w0 w1) +
   count_events is_dispatch (new_events w1 w3) <= 1)%nat.
Proof.
  cbv zeta.
  set (E := Scenario.env [Scenario.post] [] 5000 Scenario.reply
              (Ok [Scenario.sent "0xc1" "all good here"])).
  set (self := Scenario.manager false []).
  assert (Hq : quiet_pipeline E) by (intros m rs s tr; reflexivity).
  assert (Hids : dispatch_ids_differ E (memory_id E self Scenario.post)).
  { intros a tr rs [= <-]. constructor; [|constructor].
    vm_compute. intros H. discriminate H. }
  assert (Hlook : store_lookup (memory_id E self Scenario.post)
                    (store Scenario.w0) = None) by reflexivity.
  split; [exact Hq|]. split; [exact Hids|]. split; [exact Hlook|].
  destruct (dedup_gate_makes_processing_idempotent E self Scenario.agent
              Scenario.post Scenario.w0 Hq Hids Hlook) as [_ Hpasses].
  destruct (Hpasses Scenario.agent
              (snd (process_candidate E self Scenario.agent Scenario.post
                      Scenario.w0)) [] (eq_sym (app_nil_r _)) (List.Forall_nil _))
    as (_ & Hone & Hcount & _).
  split; [|exact Hcount].
  apply Hone. vm_compute. discriminate.
Defined.

Lemma dry_run_generates_but_never_dispatches_witness :
  let E := Scenario.env [Scenario.post] [] 5000 Scenario.reply
             (Ok [Scenario.sent "0xc1" "all good here"]) in
  let self := Scenario.manager true [] in
  let memory := mkMemory None "uuid:7" "agent-uuid" "room"
                  (mkContent (text Scenario.post) None None None) in
  let '(r, w') :=
    handleCast E self Scenario.agent Scenario.post memory [Scenario.post]
      Scenario.w0 in
  dry_run self = true /\
  (exists evs, trace w' = evs ++ [] /\ forallb no_dispatch evs = true) /\
  exists ctx evs,
    forallb context_event evs = true /\
    r = Ok None /\
    trace w' =
      ELog (LogDryRun "0xa1" "all good here")
      :: EGenerateMessageResponse ctx :: evs.
Proof.
  cbv zeta.
  pose proof (dry_run_generates_but_never_dispatches
                (Scenario.env [Scenario.post] [] 5000 Scenario.reply
                   (Ok [Scenario.sent "0xc1" "all good here"]))
                (Scenario.manager true []) Scenario.agent Scenario.post
                (mkMemory None "uuid:7" "agent-uuid" "room"
                   (mkContent (text Scenario.post) None None None))
                [Scenario.post] Scenario.w0 eq_refl) as H.
  destruct (handleCast _ _ _ _ _ _ _) as [r w'].
  destruct H as (_ & _ & Hnd & _ & _ & Hgen).
  split; [reflexivity|]. split; [exact Hnd|].
  destruct Hgen as (ctx & evs & Hctx & Hr & Htr).
  - cbn. lia.
  - discriminate.
  - split; [|split]; intros; eexists; reflexivity.
  - exists ctx, evs. split; [exact Hctx|]. split; [exact Hr|].
    rewrite Htr. cbn [app]. rewrite app_nil_r. reflexivity.
Defined.

Lemma self_authored_never_answered_witness :
  let E := Scenario.env [Scenario.own_post] [] 5000 Scenario.reply
             (Ok [Scenario.sent "0xc1" "all good here"]) in
  let self := Scenario.manager false [] in
  fid (profile Scenario.own_post) = fid Scenario.agent /\
  store (snd (process_candidate E self Scenario.agent Scenario.own_post
                Scenario.w0)) = store Scenario.w0.
Proof.
  cbv zeta. split; [reflexivity|].
  destruct (self_authored_never_answered
              (Scenario.env [Scenario.own_post] [] 5000 Scenario.reply
                 (Ok [Scenario.sent "0xc1" "all good here"]))
              (Scenario.manager false []) Scenario.agent Scenario.own_post
              eq_refl) as [_ H].
  exact (proj1 (H Scenario.w0)).
Defined.

Lemma empty_dispatch_marks_processed_without_record_witness :
  let E := Scenario.env [Scenario.post] [] 5000 Scenario.reply (Ok []) in
  let self := Scenario.manager false [] in
  sendCast E
    (send_args self Scenario.post "room"
       (with_reply_target "0xa1/agent-uuid" Scenario.reply))
    (trace Scenario.w0) = Ok [] /\
  exists w',
    callback E self Scenario.post "room" "0xa1/agent-uuid" Scenario.reply
      Scenario.w0 = (Ok [], w') /\
    hash Scenario.post ∈ lastProcessedCasts w' /\
    store w' = store Scenario.w0.
Proof.
  cbv zeta. split; [reflexivity|].
  destruct (empty_dispatch_marks_processed_without_record
              (Scenario.env [Scenario.post] [] 5000 Scenario.reply (Ok []))
              (Scenario.manager false []) Scenario.post "room"
              "0xa1/agent-uuid" Scenario.reply Scenario.w0 eq_refl)
    as (w' & Hrun & Hin & _ & Hstore & _).
  exists w'. split; [exact Hrun|]. split; [exact Hin|exact Hstore].
Defined.

Lemma no_fid_cycle_is_noop_witness :
  let E := Scenario.env [Scenario.post] [] 5000 Scenario.reply (Ok []) in
  (exists cfg,
     farcasterConfig Scenario.manager_no_fid = Some cfg /\
     (FARCASTER_FID cfg = None \/ FARCASTER_FID cfg = Some 0)) /\
  handleInteractionsLoop E Scenario.manager_no_fid Scenario.w0 =
    (Ok tt,
     mkWorld [] ∅ None (Some 30000)
       [ESetTimeout 30000; ELog LogNoFid; ELog LogChecking]).
Proof.
  cbv zeta.
  assert (H : exists cfg,
            farcasterConfig Scenario.manager_no_fid = Some cfg /\
            (FARCASTER_FID cfg = None \/ FARCASTER_FID cfg = Some 0))
    by (eexists; split; [reflexivity|left; reflexivity]).
  split; [exact H|].
  exact (proj2 (no_fid_cycle_is_noop
                  (Scenario.env [Scenario.post] [] 5000 Scenario.reply (Ok []))
                  Scenario.manager_no_fid Scenario.w0 (or_intror H))).
Defined.

(** The default interval: 120 seconds, in milliseconds. *)
Example default_poll_delay :
  poll_delay (Scenario.manager false []) = 120000.
Proof. reflexivity. Qed.

(** The dry run on the concrete feed, newest event first: the reply is
    generated and logged, and nothing is sent. *)
Example dry_run_trace :
  let tr :=
    trace (snd (handleInteractions
                  (Scenario.env [Scenario.post] [] 5000 Scenario.reply (Ok []))
                  (Scenario.manager true []) Scenario.w0)) in
  count_events is_generation tr = 1%nat /\
  count_events is_dispatch tr = 0%nat /\
  In (ELog (LogDryRun "0xa1" "all good here")) tr.
Proof.
  cbv zeta. split; [vm_compute; reflexivity|].
  split; [vm_compute; reflexivity|vm_compute; tauto].
Qed.

(** ** The aggregation filter *)

Lemma filter_callback_run E cast w :
  filter_callback E cast w =
    (Ok (cast_is_valid (lastProcessedCasts w) (date_now E (trace w)) cast),
     record_event
       (ELog (cast_checks_log (lastProcessedCasts w) (date_now E (trace w)) cast))
       (record_event EDateNow w)).
Proof. reflexivity. Qed.


(** The filter never throws and only reads [lastProcessedCasts]. *)
Lemma filter_m_callback_total E casts w :
  exists kept w',
    filter_m (filter_callback E) casts w = (Ok kept, w') /\
    lastProcessedCasts w' = lastProcessedCasts w /\
    store w' = store w /\
    exists evs, trace w' = evs ++ trace w.
Proof.
  revert w. induction casts as [|cast casts IH]; intros w; simpl.
  - exists [], w. repeat split. exists []. reflexivity.
  - rewrite bind_run, filter_callback_run.
    destruct (IH (record_event
                    (ELog (cast_checks_log (lastProcessedCasts w)
                             (date_now E (trace w)) cast))
                    (record_event EDateNow w)))
      as (kept & w' & Hrun & Hp & Hs & evs & Htr).
    rewrite bind_run, Hrun. eexists _, w'. split; [reflexivity|].
    split; [exact Hp|]. split; [exact Hs|].
    exists (evs ++ [ELog (cast_checks_log (lastProcessedCasts w)
                            (date_now E (trace w)) cast); EDateNow]).
    rewrite Htr, <- app_assoc. reflexivity.
Qed.

Lemma cast_is_valid_iff processed now cast :
  cast_is_valid processed now cast = true <->
  (n_hash cast ∉ processed) /\
  (exists t, n_timestamp cast = Some t /\ now - t < 24 * 60 * 60 * 1000) /\
  (10 < js_length (n_text cast))%nat.
Proof.
  unfold cast_is_valid, day_ms. rewrite !andb_true_iff, negb_true_iff.
  rewrite bool_decide_eq_false, Nat.ltb_lt.
  split.
  - intros [[Hu Hr] Hl]. split; [exact Hu|]. split; [|exact Hl].
    destruct (n_timestamp cast) as [t|]; [|discriminate Hr].
    exists t. split; [reflexivity|]. apply Z.ltb_lt, Hr.
  - intros (Hu & (t & Ht & Hr) & Hl). rewrite Ht.
    split; [split; [exact Hu|apply Z.ltb_lt, Hr]|exact Hl].
Qed.

(** The two ages of the recency boundary, for an unprocessed cast with a
    text of 29 characters. *)
Example recency_boundary :
  let cast age :=
    mkNeynarCast "0xd1" 7 "first thoughts on the release" None 0
      (Some (Scenario.now0 - age)) in
  cast_is_valid ∅ Scenario.now0 (cast (24 * 60 * 60 * 1000 + 1000)) = false /\
  cast_is_valid ∅ Scenario.now0 (cast (24 * 60 * 60 * 1000)) = false /\
  cast_is_valid ∅ Scenario.now0 (cast (23 * 60 * 60 * 1000 + 59 * 60 * 1000))
  = true.
Proof. cbv zeta. repeat split; vm_compute; reflexivity. Qed.

(** On a text of one-byte characters [s.length] is the number of bytes. *)
Lemma js_length_one_byte s :
  Forall (fun c => (Ascii.nat_of_ascii c < 128)%nat) (String.list_ascii_of_string s) ->
  js_length s = String.length s.
Proof.
  induction s as [|c s IH]; simpl; [reflexivity|].
  intros H. inversion H as [|? ? Hc Hs]; subst.
  rewrite (IH Hs). unfold utf16_units.
  destruct (Nat.ltb_spec (Ascii.nat_of_ascii c) 128) as [_|Hge]; [reflexivity|].
  lia.
Qed.

(** The length test counts as [cast.text.length] does.  Six accented
    letters are twelve bytes and six units: the cast is dropped.  Eleven of
    them are kept.  An emoji outside the basic plane counts for two. *)
Example length_boundary :
  let cast txt :=
    mkNeynarCast "0xd1" 7 txt None 0 (Some (Scenario.now0 - 1000)) in
  (String.length "éééééé" = 12%nat /\ js_length "éééééé" = 6%nat) /\
  cast_is_valid ∅ Scenario.now0 (cast "éééééé") = false /\
  cast_is_valid ∅ Scenario.now0 (cast "ééééééééééé") = true /\
  cast_is_valid ∅ Scenario.now0 (cast "0123456789") = false /\
  cast_is_valid ∅ Scenario.now0 (cast "0123456789a") = true /\
  js_length "😀😀😀😀😀" = 10%nat /\
  cast_is_valid ∅ Scenario.now0 (cast "😀😀😀😀😀") = false /\
  cast_is_valid ∅ Scenario.now0 (cast "😀😀😀😀😀😀") = true.
Proof. cbv zeta. repeat split; vm_compute; reflexivity. Qed.


(** ** One pick per author *)

Lemma js_index_in_range {A} (xs : list A) (num den : Z) :
  0 <= num < den -> xs <> [] ->
  exists x, js_index xs ((num * Z.of_nat (length xs)) `div` den) = Some x /\
            In x xs.
Proof.
  intros Hr Hne.
  assert (Hlen : 0 < Z.of_nat (length xs)) by (destruct xs; [congruence|simpl; lia]).
  set (idx := (num * Z.of_nat (length xs)) `div` den).
  assert (Hidx : 0 <= idx < Z.of_nat (length xs)).
  { split.
    - apply Z.div_pos; nia.
    - apply Z.div_lt_upper_bound; nia. }
  unfold js_index. destruct (Z.ltb_spec idx 0) as [Hneg|_]; [lia|].
  destruct (lookup_lt_is_Some_2 xs (Z.to_nat idx)) as [x Hx]; [lia|].
  exists x. split; [exact Hx|].
  apply list_elem_of_In. eapply list_elem_of_lookup_2, Hx.
Qed.

Lemma select_one_spec E user casts selected w :
  random_in_unit E ->
  exists w',
    (casts = [] /\ select_one E (user, casts) selected w = (Ok selected, w')) \/
    (exists c, In c casts /\
               select_one E (user, casts) selected w = (Ok (selected ++ [c]), w')).
Proof.
  intros Hrand. unfold select_one.
  destruct casts as [|c0 casts]; [exists w; left; split; reflexivity|].
  change (0 <? length (c0 :: casts))%nat with true. cbv iota.
  destruct (js_index_in_range (c0 :: casts) (fst (math_random E (trace w)))
              (snd (math_random E (trace w))) (Hrand (trace w)))
    as (c & Hidx & Hin); [discriminate|].
  run_m. rewrite Hidx.
  eexists. right. exists c. split; [exact Hin|reflexivity].
Qed.

Lemma for_of_acc_cons {A S} (x : A) xs (body : A -> S -> M S) acc :
  for_of_acc (x :: xs) body acc =
  bind (body x acc) (fun acc' => for_of_acc xs body acc').
Proof. reflexivity. Qed.

Lemma for_of_acc_app {A S} (xs ys : list A) (body : A -> S -> M S) acc w :
  for_of_acc (xs ++ ys) body acc w =
  bind (for_of_acc xs body acc) (fun acc' => for_of_acc ys body acc') w.
Proof.
  revert acc w. induction xs as [|x xs IH]; intros acc w; [reflexivity|].
  simpl app. rewrite !for_of_acc_cons, !bind_run.
  destruct (body x acc w) as [[acc'|e] w1]; [|reflexivity].
  rewrite IH, bind_run. reflexivity.
Qed.

Lemma select_loop_spec E castsByUser :
  random_in_unit E ->
  Forall nonempty_entry castsByUser ->
  forall acc w, exists selected w',
    for_of_acc castsByUser (select_one E) acc w = (Ok (acc ++ selected), w') /\
    Forall2 (fun entry c => In c (snd entry)) castsByUser selected.
Proof.
  intros Hrand. induction 1 as [|[user casts] rest Hne _ IH]; intros acc w.
  - exists [], w. simpl. rewrite app_nil_r. split; [reflexivity|constructor].
  - rewrite for_of_acc_cons, bind_run.
    destruct (select_one_spec E user casts acc w Hrand)
      as (w1 & [[Hnil _]|(c & Hin & Hrun)]); [contradiction (Hne Hnil)|].
    rewrite Hrun.
    destruct (IH (acc ++ [c]) w1) as (selected & w' & Hloop & Hall).
    exists (c :: selected), w'. split.
    + rewrite Hloop, <- app_assoc. reflexivity.
    + constructor; [exact Hin|exact Hall].
Qed.

(** *** The map of casts by user *)

Lemma map_set_keys {V} (k : string) (v : V) (m : JsMap V) :
  map fst (map_set k v m) =
  if bool_decide (k ∈ map fst m) then map fst m else map fst m ++ [k].
Proof.
  induction m as [|[k' v'] m IH]; [reflexivity|].
  cbn [map_set]. destruct (String.eqb_spec k' k) as [->|Hne]; cbn [map fst].
  - rewrite bool_decide_eq_true_2 by (apply elem_of_cons; left; reflexivity).
    reflexivity.
  - rewrite IH. destruct (bool_decide (k ∈ map fst m)) eqn:Hin.
    + apply bool_decide_eq_true in Hin.
      rewrite bool_decide_eq_true_2 by (apply elem_of_cons; right; exact Hin).
      reflexivity.
    + apply bool_decide_eq_false in Hin.
      rewrite bool_decide_eq_false_2; [reflexivity|].
      intros H. apply elem_of_cons in H as [H|H];
        [exact (Hne (eq_sym H))|exact (Hin H)].
Qed.

Lemma map_set_key_in {V} (k : string) (v : V) (m : JsMap V) :
  k ∈ map fst (map_set k v m).
Proof.
  rewrite map_set_keys. destruct (bool_decide (k ∈ map fst m)) eqn:Hin.
  - apply bool_decide_eq_true in Hin. exact Hin.
  - apply elem_of_app. right. apply list_elem_of_singleton. reflexivity.
Qed.

Lemma map_set_keys_mono {V} (k k' : string) (v : V) (m : JsMap V) :
  k' ∈ map fst m -> k' ∈ map fst (map_set k v m).
Proof.
  intros H. rewrite map_set_keys.
  destruct (bool_decide (k ∈ map fst m)); [exact H|].
  apply elem_of_app. left. exact H.
Qed.

Lemma map_set_NoDup {V} (k : string) (v : V) (m : JsMap V) :
  NoDup (map fst m) -> NoDup (map fst (map_set k v m)).
Proof.
  intros Hnd. rewrite map_set_keys.
  destruct (bool_decide (k ∈ map fst m)) eqn:Hin; [exact Hnd|].
  apply bool_decide_eq_false in Hin.
  apply NoDup_app. split; [exact Hnd|]. split.
  - intros x Hx Hk. apply list_elem_of_singleton in Hk. subst x. exact (Hin Hx).
  - apply NoDup_singleton.
Qed.

Lemma map_set_entries {V} (k k' : string) (v v' : V) (m : JsMap V) :
  (k', v') ∈ map_set k v m -> (k' = k /\ v' = v) \/ (k', v') ∈ m.
Proof.
  induction m as [|[k0 v0] m IH]; simpl.
  - intros H. apply list_elem_of_singleton in H. injection H as -> ->.
    left. split; reflexivity.
  - destruct (String.eqb_spec k0 k) as [->|Hne].
    + intros H. apply elem_of_cons in H as [H|H].
      * injection H as -> ->. left. split; reflexivity.
      * right. apply elem_of_cons. right. exact H.
    + intros H. apply elem_of_cons in H as [H|H].
      * right. apply elem_of_cons. left. exact H.
      * destruct (IH H) as [Hk|Hin]; [left; exact Hk|].
        right. apply elem_of_cons. right. exact Hin.
Qed.

(** *** The fetch loop *)

Lemma map_m_to_cast_shape E valid :
  forall w casts w',
    map_m (fun cast =>
             p <- client_getProfile E (n_author_fid cast) ;;
             ret (to_cast cast p)) valid w = (Ok casts, w') ->
    Forall2 (fun nc c => exists p, c = to_cast nc p) valid casts.
Proof.
  induction valid as [|nc valid IH]; intros w casts w'; simpl.
  - intros [= <- _]. constructor.
  - rewrite !bind_run. unfold client_getProfile, call at 1.
    destruct (getProfile E (n_author_fid nc) (trace w)) as [p|e];
      [|discriminate].
    unfold ret at 1. cbv beta iota. rewrite bind_run.
    destruct (map_m _ valid _) as [[rest|e] w1] eqn:Hrest; [|discriminate].
    intros [= <- _]. constructor; [exists p; reflexivity|].
    exact (IH _ _ _ Hrest).
Qed.

Lemma user_casts_shape E agentFid user wu valid casts :
  fst (user_casts E agentFid user wu) = Ok (Some (valid, casts)) ->
  surviving_casts E valid casts.
Proof.
  unfold user_casts. rewrite bind_run. unfold call at 1.
  destruct (lookupUserByUsername E user agentFid (trace wu)) as [[userFid|]|e];
    [| discriminate | discriminate].
  rewrite bind_run. unfold call at 1.
  match goal with
  | |- context [fetchCastsForUser E ?a ?b ?c ?d ?tr] =>
      destruct (fetchCastsForUser E a b c d tr) as [fetched|e]; [|discriminate]
  end.
  rewrite bind_run.
  match goal with
  | |- context [filter_m (filter_callback E) fetched ?w0] =>
      destruct (filter_m_callback_total E fetched w0)
        as (kept & w1 & Hfilter & _); rewrite Hfilter
  end.
  rewrite bind_run.
  destruct (map_m _ kept w1) as [[converted|e] w2] eqn:Hmap; [|discriminate].
  intros [= <- <-]. split.
  - eexists fetched, _. rewrite Hfilter. reflexivity.
  - exact (map_m_to_cast_shape E _ _ _ _ Hmap).
Qed.

Lemma fetch_user_spec E agentFid user m w :
  exists m' w',
    fetch_user E agentFid user m w = (Ok m', w') /\
    (m' = m \/
     exists valid casts,
       casts <> [] /\
       fst (user_casts E agentFid user w) = Ok (Some (valid, casts)) /\
       m' = map_set user casts m) /\
    (forall valid casts,
       fst (user_casts E agentFid user w) = Ok (Some (valid, casts)) ->
       casts <> [] -> m' = map_set user casts m).
Proof.
  unfold fetch_user, try_catch. rewrite bind_run.
  destruct (user_casts E agentFid user w) as [[[[valid casts]|]|e] w1].
  - unfold record_user_casts.
    destruct casts as [|c casts].
    + run_m. eexists _, _. split; [reflexivity|]. split; [left; reflexivity|].
      intros v cs [= _ <-] Hne. contradiction Hne. reflexivity.
    + change (0 <? length (c :: casts))%nat with true. cbv iota.
      assert (Hset : forall v cs,
                (Ok (Some (valid, c :: casts)) : Res _) = Ok (Some (v, cs)) ->
                cs <> [] ->
                map_set user (c :: casts) m = map_set user cs m)
        by (intros v cs [= _ <-] _; reflexivity).
      assert (Hnew : map_set user (c :: casts) m = m \/
                exists v cs, cs <> [] /\
                  (Ok (Some (valid, c :: casts)) : Res _) = Ok (Some (v, cs)) /\
                  map_set user (c :: casts) m = map_set user cs m).
      { right. exists valid, (c :: casts).
        split; [discriminate|split; reflexivity]. }
      destruct valid as [|first valid]; [|destruct (n_timestamp first)];
        run_m; eexists _, _; (split; [reflexivity|]); split; assumption.
  - run_m. eexists _, _. split; [reflexivity|]. split; [left; reflexivity|].
    intros v cs H. discriminate H.
  - run_m. eexists _, _. split; [reflexivity|]. split; [left; reflexivity|].
    intros v cs H. discriminate H.
Qed.

Lemma listed_nil E agentFid : listed E agentFid [] [].
Proof.
  split; [constructor|]. intros user casts H.
  apply not_elem_of_nil in H. contradiction.
Qed.

Lemma fetch_loop_spec E agentFid users :
  forall seen m w,
    listed E agentFid seen m ->
    exists m' w',
      for_of_acc users (fetch_user E agentFid) m w = (Ok m', w') /\
      listed E agentFid (seen ++ users) m' /\
      (forall k, k ∈ map fst m -> k ∈ map fst m').
Proof.
  induction users as [|user users IH]; intros seen m w Hm.
  - exists m, w. rewrite app_nil_r. split; [reflexivity|]. split; [exact Hm|auto].
  - rewrite for_of_acc_cons, bind_run.
    destruct (fetch_user_spec E agentFid user m w)
      as (m1 & w1 & Hrun & Hcases & _).
    rewrite Hrun.
    assert (Hm1 : listed E agentFid (seen ++ [user]) m1 /\
                  (forall k, k ∈ map fst m -> k ∈ map fst m1)).
    { destruct Hm as [Hnd Hent].
      destruct Hcases as [->|(valid & casts & Hne & Hfetch & ->)].
      - split; [|auto]. split; [exact Hnd|].
        intros u cs Hin. destruct (Hent u cs Hin) as (Hu & Hcs & Hf).
        split; [apply elem_of_app; left; exact Hu|]. split; assumption.
      - split; [|intros k; apply map_set_keys_mono].
        split; [apply map_set_NoDup, Hnd|].
        intros u cs Hin. apply map_set_entries in Hin as [[-> ->]|Hin].
        + split; [apply elem_of_app; right; apply list_elem_of_singleton;
                  reflexivity|].
          split; [exact Hne|]. exists w, valid.
          split; [exact Hfetch|exact (user_casts_shape _ _ _ _ _ _ Hfetch)].
        + destruct (Hent u cs Hin) as (Hu & Hcs & Hf).
          split; [apply elem_of_app; left; exact Hu|]. split; assumption. }
    destruct Hm1 as [Hm1 Hmono].
    destruct (IH (seen ++ [user]) m1 w1 Hm1) as (m' & w' & Hloop & Hm' & Hmono').
    exists m', w'. split; [exact Hloop|]. split.
    + rewrite <- app_assoc in Hm'. exact Hm'.
    + intros k Hk. apply Hmono', Hmono, Hk.
Qed.

Lemma map_set_entry_in {V} (k : string) (v : V) (m : JsMap V) :
  (k, v) ∈ map_set k v m.
Proof.
  induction m as [|[k0 v0] m IH]; cbn [map_set].
  - apply list_elem_of_singleton. reflexivity.
  - destruct (String.eqb_spec k0 k) as [->|Hne].
    + apply elem_of_cons. left. reflexivity.
    + apply elem_of_cons. right. exact IH.
Qed.

Lemma map_set_other {V} (k k' : string) (v v' : V) (m : JsMap V) :
  k' <> k -> (k', v') ∈ m -> (k', v') ∈ map_set k v m.
Proof.
  intros Hne. induction m as [|[k0 v0] m IH]; cbn [map_set]; intros Hin.
  - apply not_elem_of_nil in Hin. contradiction.
  - apply elem_of_cons in Hin as [Hin|Hin].
    + injection Hin as <- <-.
      destruct (String.eqb_spec k' k) as [Heq|_]; [contradiction (Hne Heq)|].
      apply elem_of_cons. left. reflexivity.
    + destruct (String.eqb_spec k0 k) as [->|_];
        apply elem_of_cons; right; [exact Hin|exact (IH Hin)].
Qed.

(** An entry survives the turns of the other users. *)
Lemma fetch_loop_keeps E agentFid users :
  forall m w user casts,
    user ∉ users ->
    (user, casts) ∈ m ->
    forall m' w',
      for_of_acc users (fetch_user E agentFid) m w = (Ok m', w') ->
      (user, casts) ∈ m'.
Proof.
  induction users as [|u users IH]; intros m w user casts Hnot Hin m' w'.
  - intros [= <- _]. exact Hin.
  - rewrite for_of_acc_cons, bind_run.
    destruct (fetch_user_spec E agentFid u m w) as (m1 & w1 & Hrun & Hcases & _).
    rewrite Hrun. apply IH.
    + intros H. apply Hnot. apply elem_of_cons. right. exact H.
    + destruct Hcases as [->|(valid & cs & _ & _ & ->)]; [exact Hin|].
      apply map_set_other; [|exact Hin].
      intros ->. apply Hnot. apply elem_of_cons. left. reflexivity.
Qed.

(** The keys of the map only grow along the loop. *)
Lemma fetch_loop_mono E agentFid users :
  forall m w m' w',
    for_of_acc users (fetch_user E agentFid) m w = (Ok m', w') ->
    forall k, k ∈ map fst m -> k ∈ map fst m'.
Proof.
  induction users as [|u users IH]; intros m w m' w'.
  - intros [= <- _] k Hk. exact Hk.
  - rewrite for_of_acc_cons, bind_run.
    destruct (fetch_user_spec E agentFid u m w) as (m1 & w1 & Hrun & Hcases & _).
    rewrite Hrun. intros Hloop k Hk. apply (IH _ _ _ _ Hloop).
    destruct Hcases as [->|(valid & cs & _ & _ & ->)]; [exact Hk|].
    apply map_set_keys_mono, Hk.
Qed.

(** C5.  When the mention feed answers, the aggregation returns the
    mentions followed by the selections, nothing reordered.  The selections
    are one cast per entry of [castsByUser], in the order of the entries,
    each a member of its entry's casts; the entries have distinct tracked
    authors, each with a non-empty filtered set as the code computed it
    (the converted survivors of the filter).  Every tracked author whose
    turn produced at least one surviving cast has an entry, hence exactly
    one selection; and when the author is not listed again later, the entry
    is the filtered set of that turn. *)
Theorem one_pick_per_author E cfg agentFid w mentions :
  random_in_unit E ->
  getMentions E agentFid 10 (trace w) = Ok mentions ->
  exists castsByUser selected w',
    aggregate_candidates E cfg agentFid w = (Ok (mentions ++ selected), w') /\
    listed E agentFid (FARCASTER_TARGET_USERS cfg) castsByUser /\
    Forall2 (fun entry c => In c (snd entry)) castsByUser selected /\
    (forall before user after valid casts,
       FARCASTER_TARGET_USERS cfg = before ++ user :: after ->
       let w0 :=
         record_event (ELog (LogProcessingTargets (FARCASTER_TARGET_USERS cfg)))
           (record_event (EGetMentions agentFid 10) w) in
       let wu := snd (for_of_acc before (fetch_user E agentFid) [] w0) in
       fst (user_casts E agentFid user wu) = Ok (Some (valid, casts)) ->
       casts <> [] ->
       user ∈ map fst castsByUser /\
       (user ∉ after -> (user, casts) ∈ castsByUser)).
Proof.
  intros Hrand Hmentions.
  unfold aggregate_candidates. rewrite bind_run. unfold call at 1.
  rewrite Hmentions. cbv zeta.
  destruct (FARCASTER_TARGET_USERS cfg) as [|u0 users0] eqn:Htargets.
  { exists [], [], (record_event (EGetMentions agentFid 10) w).
    change (0 <? length [])%nat with false. cbv iota. unfold ret.
    rewrite app_nil_r. split; [reflexivity|]. split; [apply listed_nil|].
    split; [constructor|].
    intros before user after valid casts Heq. destruct before; discriminate Heq. }
  change (0 <? length (u0 :: users0))%nat with true. cbv iota.
  rewrite bind_run. unfold log at 1, emit at 1, modify at 1.
  set (w0 := record_event (ELog (LogProcessingTargets (u0 :: users0)))
               (record_event (EGetMentions agentFid 10) w)).
  rewrite bind_run.
  destruct (fetch_loop_spec E agentFid (u0 :: users0) [] [] w0
              (listed_nil E agentFid))
    as (castsByUser & w1 & Hloop & Hlisted & _).
  rewrite Hloop. rewrite bind_run.
  assert (Hne : Forall nonempty_entry castsByUser).
  { apply Forall_forall. intros [u cs] Hin.
    destruct Hlisted as [_ Hent]. exact (proj1 (proj2 (Hent u cs Hin))). }
  destruct (select_loop_spec E castsByUser Hrand Hne [] w1)
    as (selected & w2 & Hsel & Hall).
  unfold select_casts. rewrite Hsel. unfold ret.
  exists castsByUser, selected, w2. split; [reflexivity|].
  split; [exact Hlisted|]. split; [exact Hall|].
  intros before user after valid casts Heq. cbv zeta. intros Hfetch Hcasts.
  rewrite Heq, for_of_acc_app, bind_run in Hloop.
  destruct (fetch_loop_spec E agentFid before [] [] w0 (listed_nil E agentFid))
    as (m1 & wu & Hbefore & _ & _).
  rewrite Hbefore in Hloop, Hfetch. unfold snd in Hfetch.
  rewrite for_of_acc_cons, bind_run in Hloop.
  destruct (fetch_user_spec E agentFid user m1 wu)
    as (m2 & w3 & Hrun & _ & Hset).
  rewrite Hrun in Hloop. specialize (Hset valid casts Hfetch Hcasts). subst m2.
  split.
  - exact (fetch_loop_mono E agentFid after _ _ _ _ Hloop user
             (map_set_key_in user casts m1)).
  - intros Hnot.
    exact (fetch_loop_keeps E agentFid after _ _ user casts Hnot
             (map_set_entry_in user casts m1) _ _ Hloop).
Qed.

Lemma one_pick_per_author_witness :
  let E := Scenario.env [Scenario.post] Scenario.fetched Scenario.now0
             Scenario.reply (Ok []) in
  let cfg := mkConfig (Some 42) None false ["alice"] in
  random_in_unit E /\
  getMentions E 42 10 (trace Scenario.w0) = Ok [Scenario.post] /\
  exists castsByUser selected w',
    aggregate_candidates E cfg 42 Scenario.w0 =
      (Ok ([Scenario.post] ++ selected), w') /\
    Forall2 (fun entry c => In c (snd entry)) castsByUser selected /\
    "alice" ∈ map fst castsByUser.
Proof.
  cbv zeta.
  assert (Hrand : random_in_unit
            (Scenario.env [Scenario.post] Scenario.fetched Scenario.now0
               Scenario.reply (Ok [])))
    by (intros tr; simpl; lia).
  split; [exact Hrand|]. split; [reflexivity|].
  destruct (one_pick_per_author
              (Scenario.env [Scenario.post] Scenario.fetched Scenario.now0
                 Scenario.reply (Ok []))
              (mkConfig (Some 42) None false ["alice"]) 42 Scenario.w0
              [Scenario.post] Hrand eq_refl)
    as (castsByUser & selected & w' & Hrun & _ & Hall & Hturn).
  exists castsByUser, selected, w'. split; [exact Hrun|]. split; [exact Hall|].
  refine (proj1 (Hturn [] "alice" [] _ _ eq_refl _ _)).
  - vm_compute. reflexivity.
  - discriminate.
Defined.

(** The run behind the witness: of the three casts of alice that pass the
    filter, the one at index floor(1/2 * 3) = 1 is selected and follows the
    mention. *)
Example single_pick_of_three :
  fst (aggregate_candidates
         (Scenario.env [Scenario.post] Scenario.fetched Scenario.now0
            Scenario.reply (Ok []))
         (mkConfig (Some 42) None false ["alice"]) 42 Scenario.w0)
  = Ok [Scenario.post;
        mkCast "0xd2" 7 "second thoughts on the release" Scenario.alice
          (Some (mkCastId "0xd1" 7)) (Some (Scenario.now0 - 2000))].
Proof. vm_compute. reflexivity. Qed.

(** * Further properties of the manager *)

(** ** Casts without text *)

Lemma handleCast_no_text E self agent cast memory thread w :
  fid (profile cast) <> fid agent ->
  c_text (m_content memory) = "" ->
  handleCast E self agent cast memory thread w =
    (Ok (Some (mkContent "" None (Some "IGNORE") None)),
     record_event (ELog (LogSkipNoText (hash cast))) w).
Proof.
  intros Hfid Htext. unfold handleCast.
  destruct (Z.eqb_spec (fid (profile cast)) (fid agent)) as [Heq|_];
    [contradiction (Hfid Heq)|].
  rewrite Htext. reflexivity.
Qed.

(** X1.  A cast of another author whose text is empty ends [handleCast] on
    its second test: one log line, the content [{text: "", action:
    "IGNORE"}] returned, nothing else.  Through the whole loop body for that
    cast only the gate read, the connection and the thread are called: no
    record is written, no timeline fetched, nothing classified, generated
    or sent, and [lastProcessedCasts] stays as it was. *)
Theorem empty_text_is_skipped E self agent cast :
  fid (profile cast) <> fid agent ->
  text cast = "" ->
  (forall memory thread w,
     c_text (m_content memory) = "" ->
     handleCast E self agent cast memory thread w =
       (Ok (Some (mkContent "" None (Some "IGNORE") None)),
        record_event (ELog (LogSkipNoText (hash cast))) w))
  /\ (forall w,
        let w' := snd (process_candidate E self agent cast w) in
        store w' = store w /\
        lastProcessedCasts w' = lastProcessedCasts w /\
        exists evs,
          trace w' = evs ++ trace w /\ forallb gate_event evs = true).
Proof.
  intros Hfid Htext. split.
  - intros memory thread w Hm. apply handleCast_no_text; assumption.
  - assert (Hq : steps_in (quiet_step gate_event)
                   (process_candidate E self agent cast)).
    { pose proof (quiet_step_refl gate_event) as Hr.
      pose proof (quiet_step_trans gate_event) as Ht.
      pose proof (quiet_step_event gate_event) as He.
      unfold process_candidate, getMemoryById. steps.
      all: try reflexivity.
      intros w. rewrite handleCast_no_text by (try exact Hfid; exact Htext).
      apply He. reflexivity. }
    intros w. destruct (Hq w) as ((evs & Htr & Hall) & Hs & Hp).
    split; [exact Hs|]. split; [exact Hp|]. exists evs. split; assumption.
Qed.

(** ** The callback as a whole *)

(** X2.  The dispatch callback never throws.  It calls [sendCast] exactly
    once, returns exactly the records it appended to the store, and
    [lastProcessedCasts] is either untouched or has gained the hash of the
    cast; whenever a record was stored the hash is in. *)
Theorem callback_never_throws E self cast roomId memoryId content w :
  exists ms w',
    callback E self cast roomId memoryId content w = (Ok ms, w') /\
    store w' = store w ++ ms /\
    count_events is_dispatch (new_events w w') = 1%nat /\
    (lastProcessedCasts w' = lastProcessedCasts w \/
     lastProcessedCasts w' = {[hash cast]} ∪ lastProcessedCasts w) /\
    (ms <> [] -> hash cast ∈ lastProcessedCasts w').
Proof.
  rewrite callback_unfold. cbv zeta.
  set (a := send_args self cast roomId (with_reply_target memoryId content)).
  destruct (sendCast E a (trace w)) as [[|first rest]|e].
  - eexists [], _. split; [reflexivity|]. cbn [store record_event mark_processed
      set_lastProcessedCasts lastProcessedCasts].
    rewrite app_nil_r. split; [reflexivity|].
    split; [rewrite (new_events_grows w _ [ELog (LogSendError
              (TypeError "results[0] is undefined")); ESendCast a])
              by reflexivity; reflexivity|].
    split; [right; reflexivity|]. intros H. contradiction H. reflexivity.
  - eexists _, _. split; [reflexivity|].
    rewrite store_all_store, store_all_processed.
    split; [reflexivity|]. split.
    + set (ms := map r_memory _).
      rewrite (new_events_grows w _ (rev (map ECreateMemory ms) ++ [ESendCast a])).
      * rewrite count_events_app,
          (count_no_dispatch _ (no_dispatch_created ms)). reflexivity.
      * rewrite store_all_trace, <- app_assoc. reflexivity.
    + split; [right; reflexivity|]. intros _.
      cbn [mark_processed set_lastProcessedCasts lastProcessedCasts]. set_solver.
  - eexists [], _. split; [reflexivity|]. cbn [store record_event lastProcessedCasts].
    rewrite app_nil_r. split; [reflexivity|].
    split; [rewrite (new_events_grows w _ [ELog (LogSendError e); ESendCast a])
              by reflexivity; reflexivity|].
    split; [left; reflexivity|]. intros H. contradiction H. reflexivity.
Qed.

(** ** A loop over known candidates *)

(** X3.  When every candidate of the loop has a record in the store, the
    loop is one gate read per candidate, in order, and nothing else: it
    returns, the store and [lastProcessedCasts] are untouched, and no
    connection, thread, generation or dispatch call is made. *)
Theorem loop_over_known_candidates_only_reads E self agent candidates w :
  Forall (known E self (store w)) candidates ->
  exists w',
    for_of candidates (process_candidate E self agent) w = (Ok tt, w') /\
    store w' = store w /\
    lastProcessedCasts w' = lastProcessedCasts w /\
    trace w' =
      rev (map (fun c => EGetMemoryById (memory_id E self c)) candidates)
      ++ trace w.
Proof.
  revert w. induction candidates as [|c cs IH]; intros w Hknown.
  - exists w. repeat split.
  - inversion Hknown as [|? ? Hc Hcs]; subst.
    unfold known in Hc.
    destruct (store_lookup (memory_id E self c) (store w)) as [m|] eqn:Hm;
      [|contradiction Hc; reflexivity].
    cbn [for_of]. rewrite bind_run.
    rewrite (process_candidate_known E self agent c w m Hm).
    destruct (IH (record_event (EGetMemoryById (memory_id E self c)) w) Hcs)
      as (w' & Hrun & Hs & Hp & Htr).
    exists w'. split; [exact Hrun|]. split; [exact Hs|]. split; [exact Hp|].
    rewrite Htr. cbn [trace record_event map rev].
    rewrite <- app_assoc. reflexivity.
Qed.

(** ** Stopping *)


(** ** The should-respond verdict *)

Lemma respond_stage_any_verdict E classify self agent cast memory thread w :
  classifier_answers classify ->
  respond_stage (with_classifier classify E) self agent cast memory thread w =
  respond_stage (with_classifier (fun _ _ => Ok None) E) self agent cast
    memory thread w.
Proof.
  intros Hans. unfold respond_stage. run_m. unfold with_classifier.
  cbn [getTimeline composeState generateShouldRespond generateMessageResponse
       formatCast formatTimeline stringToUuid composeContext castUuid
       default_shouldRespondTemplate default_messageHandlerTemplate].
  destruct (getTimeline E _ _ _) as [timeline|e]; [|reflexivity].
  destruct (composeState E _ _ _ _ _ _) as [state|e]; [|reflexivity].
  destruct (store_lookup _ _) as [m|].
  - match goal with
    | |- context [classify ?c ?tr] => destruct (Hans c tr) as [v ->]
    end.
    reflexivity.
  - match goal with
    | |- context [classify ?c ?tr] => destruct (Hans c tr) as [v ->]
    end.
    reflexivity.
Qed.

(** X5.  The should-respond verdict is computed and not acted on: with two
    classifiers that both answer, whatever their verdicts (RESPOND, IGNORE,
    STOP or none), [handleCast] returns the same value and leaves the same
    world, trace included.  So a verdict of IGNORE or STOP does not keep the
    generation or the dispatch from running. *)
Theorem should_respond_verdict_is_not_enforced
    E classify classify' self agent cast memory thread w :
  classifier_answers classify ->
  classifier_answers classify' ->
  handleCast (with_classifier classify E) self agent cast memory thread w =
  handleCast (with_classifier classify' E) self agent cast memory thread w.
Proof.
  intros Hc Hc'. rewrite !handleCast_stages.
  destruct (fid (profile cast) =? fid agent); [reflexivity|].
  destruct (negb (truthy (c_text (m_content memory)))); [reflexivity|].
  rewrite !bind_run.
  rewrite (respond_stage_any_verdict E classify) by exact Hc.
  rewrite (respond_stage_any_verdict E classify') by exact Hc'.
  destruct (respond_stage _ self agent cast memory thread w) as [[sr|e] w1];
    reflexivity.
Qed.

Lemma should_respond_verdict_is_not_enforced_witness :
  let E := Scenario.env [Scenario.post] [] 5000 Scenario.reply
             (Ok [Scenario.sent "0xc1" "all good here"]) in
  let self := Scenario.manager false [] in
  let memory := mkMemory None "uuid:7" "agent-uuid" "room"
                  (mkContent (text Scenario.post) None None None) in
  classifier_answers (fun _ _ => Ok (Some "IGNORE")) /\
  classifier_answers (fun _ _ => Ok (Some "RESPOND")) /\
  handleCast (with_classifier (fun _ _ => Ok (Some "IGNORE")) E) self
    Scenario.agent Scenario.post memory [Scenario.post] Scenario.w0 =
  handleCast (with_classifier (fun _ _ => Ok (Some "RESPOND")) E) self
    Scenario.agent Scenario.post memory [Scenario.post] Scenario.w0 /\
  count_events is_dispatch
    (trace (snd (handleCast (with_classifier (fun _ _ => Ok (Some "IGNORE")) E)
                   self Scenario.agent Scenario.post memory [Scenario.post]
                   Scenario.w0))) = 1%nat.
Proof.
  cbv zeta.
  assert (Hi : classifier_answers (fun _ _ => Ok (Some "IGNORE")))
    by (intros c tr; eexists; reflexivity).
  assert (Hr : classifier_answers (fun _ _ => Ok (Some "RESPOND")))
    by (intros c tr; eexists; reflexivity).
  split; [exact Hi|]. split; [exact Hr|]. split.
  - exact (should_respond_verdict_is_not_enforced _ _ _ _ _ _ _ _ _ Hi Hr).
  - vm_compute. reflexivity.
Defined.

(** ** What a cycle never undoes *)

Lemma only_appends_refl w : only_appends w w.
Proof. split; [exists []; symmetry; apply app_nil_r|reflexivity]. Qed.

Lemma only_appends_trans a b c :
  only_appends a b -> only_appends b c -> only_appends a c.
Proof.
  intros [(x & Hx) Hp] [(y & Hy) Hq]. split.
  - exists (x ++ y). rewrite Hy, Hx, <- app_assoc. reflexivity.
  - set_solver.
Qed.

Lemma only_appends_event (allowed := any_event) ev w :
  allowed ev = true -> only_appends w (record_event ev w).
Proof.
  intros _. split; [exists []; symmetry; apply app_nil_r|reflexivity].
Qed.

Lemma handleInteractions_only_appends E self :
  steps_in only_appends (handleInteractions E self).
Proof.
  pose proof only_appends_refl as Hr.
  pose proof only_appends_trans as Ht.
  pose proof only_appends_event as He.
  unfold_manager. steps.
  all: try reflexivity.
  all: split;
    [first [exists []; symmetry; apply app_nil_r | eexists; reflexivity]
    |cbn; set_solver].
Qed.

Lemma loop_only_appends E self :
  steps_in only_appends (handleInteractionsLoop E self).
Proof.
  intros w. rewrite loop_unfold.
  pose proof (handleInteractions_only_appends E self w) as H.
  destruct (handleInteractions E self w) as [[[]|e] w1]; exact H.
Qed.

(** X6.  A poll cycle never removes anything: after [handleInteractions],
    after the loop around it, and after [start()] followed by any number of
    cycles, the store is the old store with records appended and
    [lastProcessedCasts] contains the old set; both hold whether the cycles
    returned or threw. *)
Theorem cycles_only_append E self w :
  only_appends w (snd (handleInteractions E self w)) /\
  only_appends w (snd (handleInteractionsLoop E self w)) /\
  forall n, only_appends w (snd (run_cycles E self n w)).
Proof.
  split; [apply handleInteractions_only_appends|].
  split; [apply loop_only_appends|].
  induction n as [|n IH]; [apply loop_only_appends|].
  destruct (run_cycles_spec E self n w) as (w1 & Hrun & Hto & _).
  cbn [run_cycles]. rewrite bind_run, Hrun. rewrite Hrun in IH.
  unfold timer_fires. rewrite bind_run. unfold gets at 1. rewrite Hto.
  rewrite bind_run. unfold modify at 1.
  eapply only_appends_trans; [exact IH|].
  exact (loop_only_appends E self (set_timeout None w1)).
Qed.

(** ** Marks in [lastProcessedCasts] *)

Lemma marks_refl w : marks_follow_dispatch w w.
Proof. exists []. split; [reflexivity|]. intros h Hh. left. exact Hh. Qed.

Lemma marks_trans a b c :
  marks_follow_dispatch a b -> marks_follow_dispatch b c ->
  marks_follow_dispatch a c.
Proof.
  intros (e1 & H1 & M1) (e2 & H2 & M2). exists (e2 ++ e1). split.
  - rewrite H2, H1. apply app_assoc.
  - intros h Hh. destruct (M2 h Hh) as [Hb|(x & Hin & Hx)].
    + destruct (M1 h Hb) as [Ha|(x & Hin & Hx)]; [left; exact Ha|].
      right. exists x. split; [apply in_or_app; right; exact Hin|exact Hx].
    + right. exists x. split; [apply in_or_app; left; exact Hin|exact Hx].
Qed.

Lemma marks_event (allowed := any_event) ev w :
  allowed ev = true -> marks_follow_dispatch w (record_event ev w).
Proof.
  intros _. exists [ev]. split; [reflexivity|]. intros h Hh. left. exact Hh.
Qed.

Lemma marks_same w w' :
  trace w' = trace w -> lastProcessedCasts w' = lastProcessedCasts w ->
  marks_follow_dispatch w w'.
Proof.
  intros Htr Hp. exists []. split; [exact Htr|].
  intros h Hh. left. rewrite <- Hp. exact Hh.
Qed.

Lemma callback_marks E self cast roomId memoryId content :
  steps_in marks_follow_dispatch (callback E self cast roomId memoryId content).
Proof.
  intros w. rewrite callback_unfold. cbv zeta.
  set (a := send_args self cast roomId (with_reply_target memoryId content)).
  assert (Hmark : forall evs w',
            trace w' = evs ++ ESendCast a :: trace w ->
            lastProcessedCasts w' = {[hash cast]} ∪ lastProcessedCasts w ->
            marks_follow_dispatch w w').
  { intros evs w' Htr Hp. exists (evs ++ [ESendCast a]). split.
    - rewrite Htr, <- app_assoc. reflexivity.
    - intros h Hh. rewrite Hp in Hh. apply elem_of_union in Hh as [Hh|Hh].
      + right. exists a. split; [apply in_or_app; right; left; reflexivity|].
        apply elem_of_singleton in Hh. subst h. reflexivity.
      + left. exact Hh. }
  destruct (sendCast E a (trace w)) as [[|first rest]|e]; unfold snd.
  - apply (Hmark [ELog (LogSendError (TypeError "results[0] is undefined"))]);
      reflexivity.
  - eapply Hmark.
    + rewrite store_all_trace. reflexivity.
    + rewrite store_all_processed. reflexivity.
  - exists [ELog (LogSendError e); ESendCast a]. split; [reflexivity|].
    intros h Hh. left. exact Hh.
Qed.

(** X7.  A hash enters [lastProcessedCasts] only through a dispatch: every
    hash in the set after a poll cycle was in it before, or is the reply
    target of a [sendCast] call made during the cycle. *)
Theorem processed_marks_follow_dispatch E self w :
  let w' := snd (handleInteractions E self w) in
  exists evs,
    trace w' = evs ++ trace w /\
    forall h,
      h ∈ lastProcessedCasts w' ->
      h ∈ lastProcessedCasts w \/
      exists a, In (ESendCast a) evs /\ cid_hash (sa_inReplyTo a) = h.
Proof.
  cbv zeta. revert w.
  change (steps_in marks_follow_dispatch (handleInteractions E self)).
  pose proof marks_refl as Hr.
  pose proof marks_trans as Ht.
  pose proof marks_event as He.
  unfold handleInteractions, aggregate_candidates, select_casts, select_one,
    fetch_user, user_casts, record_user_casts, process_candidate, handleCast,
    run_processActions, filter_callback, client_getProfile,
    dateNow, mathRandom, getMemoryById, createMemory, log.
  steps.
  all: try reflexivity.
  all: try apply callback_marks.
  all: apply marks_same; reflexivity.
Qed.

(** ** The timer and the timestamp of the last interaction *)

Lemma clock_refl w : keeps_clock_fields w w.
Proof. split; reflexivity. Qed.

Lemma clock_trans a b c :
  keeps_clock_fields a b -> keeps_clock_fields b c -> keeps_clock_fields a c.
Proof. intros [H1 H2] [H3 H4]. split; congruence. Qed.

Lemma clock_event (allowed := any_event) ev w :
  allowed ev = true -> keeps_clock_fields w (record_event ev w).
Proof. intros _. split; reflexivity. Qed.

Lemma aggregate_keeps_clock E cfg agentFid :
  steps_in keeps_clock_fields (aggregate_candidates E cfg agentFid).
Proof.
  pose proof clock_refl as Hr.
  pose proof clock_trans as Ht.
  pose proof clock_event as He.
  unfold_manager. steps.
  all: reflexivity.
Qed.

Lemma candidates_keep_clock E self agent candidates :
  steps_in keeps_clock_fields
    (for_of candidates (process_candidate E self agent)).
Proof.
  pose proof clock_refl as Hr.
  pose proof clock_trans as Ht.
  pose proof clock_event as He.
  unfold_manager. steps.
  all: try reflexivity.
  all: split; reflexivity.
Qed.

(** X8.  [handleInteractions] never touches the timer, and it writes
    [client.lastInteractionTimestamp] only as its last step: when the cycle
    throws, or returns at once for want of an FID, the timestamp keeps its
    value; when the cycle runs to its end, the timestamp is the reading of
    the clock taken right then, and the log line that reports it is the
    last event. *)
Theorem timestamp_marks_completed_cycles E self w :
  let '(r, w') := handleInteractions E self w in
  timeout w' = timeout w /\
  match r with
  | Throw _ => lastInteractionTimestamp w' = lastInteractionTimestamp w
  | Ok _ =>
      if agent_fid self =? 0
      then lastInteractionTimestamp w' = lastInteractionTimestamp w
      else exists tr,
             trace w' =
               ELog (LogUpdatedTimestamp (date_now E tr)) :: EDateNow :: tr /\
             lastInteractionTimestamp w' = Some (date_now E tr)
  end.
Proof.
  destruct (handleInteractions E self w) as [r w'] eqn:Hrun. revert Hrun.
  unfold handleInteractions. rewrite bind_run.
  unfold log at 1, emit at 1, modify at 1.
  set (w0 := record_event (ELog LogChecking) w).
  assert (H0 : keeps_clock_fields w w0) by (split; reflexivity).
  destruct (agent_fid self =? 0).
  { run_m. intros [= <- <-]. split; reflexivity. }
  destruct (farcasterConfig self) as [cfg|].
  2:{ unfold throw. intros [= <- <-]. split; reflexivity. }
  rewrite bind_run.
  pose proof (aggregate_keeps_clock E cfg (agent_fid self) w0) as Ha.
  destruct (aggregate_candidates E cfg (agent_fid self) w0)
    as [[candidates|e] wa]; unfold snd in Ha.
  2:{ intros [= <- <-]. destruct (clock_trans _ _ _ H0 Ha). split; assumption. }
  rewrite bind_run. unfold client_getProfile, call at 1.
  set (wp := record_event (EGetProfile (agent_fid self)) wa).
  assert (Hp : keeps_clock_fields w wp).
  { eapply clock_trans; [exact H0|]. eapply clock_trans; [exact Ha|].
    split; reflexivity. }
  destruct (getProfile E (agent_fid self) (trace wa)) as [agent|e].
  2:{ intros [= <- <-]. destruct Hp. split; assumption. }
  rewrite bind_run.
  pose proof (candidates_keep_clock E self agent candidates wp) as Hl.
  destruct (for_of candidates (process_candidate E self agent) wp)
    as [[[]|e] wl]; unfold snd in Hl.
  2:{ intros [= <- <-]. destruct (clock_trans _ _ _ Hp Hl). split; assumption. }
  destruct (clock_trans _ _ _ Hp Hl) as [Hto _].
  run_m. intros [= <- <-]. cbn [timeout lastInteractionTimestamp trace].
  split; [exact Hto|]. exists (trace wl). split; reflexivity.
Qed.

(** ** A candidate that throws *)

Lemma for_of_app {A} (xs ys : list A) (body : A -> M unit) w :
  for_of (xs ++ ys) body w =
  bind (for_of xs body) (fun _ => for_of ys body) w.
Proof.
  revert w. induction xs as [|x xs IH]; intros w; [reflexivity|].
  cbn [app for_of]. rewrite !bind_run.
  destruct (body x w) as [[[]|e] w1]; [|reflexivity].
  rewrite IH, bind_run. reflexivity.
Qed.

(** X9.  Neither the candidate loop nor [handleInteractions] has a [catch]
    around the processing of a candidate.  When the aggregation returned
    the candidates, the agent's profile was fetched, the candidates before
    [cast] were processed and processing [cast] throws, then
    [handleInteractions] throws that error in the world the candidate left:
    the candidates after it are not looked at in this cycle and
    [lastInteractionTimestamp] is not updated.  The error surfaces in the
    loop of [start], which logs it and sets the next timer. *)
Theorem candidate_error_ends_the_cycle
    E self cfg agent before cast after w wa w1 w2 e :
  farcasterConfig self = Some cfg ->
  agent_fid self <> 0 ->
  aggregate_candidates E cfg (agent_fid self) (record_event (ELog LogChecking) w)
  = (Ok (before ++ cast :: after), wa) ->
  getProfile E (agent_fid self) (trace wa) = Ok agent ->
  for_of before (process_candidate E self agent)
    (record_event (EGetProfile (agent_fid self)) wa) = (Ok tt, w1) ->
  process_candidate E self agent cast w1 = (Throw e, w2) ->
  handleInteractions E self w = (Throw e, w2) /\
  lastInteractionTimestamp w2 = lastInteractionTimestamp w /\
  handleInteractionsLoop E self w =
    (Ok tt,
     set_timeout (Some (poll_delay self))
       (record_event (ESetTimeout (poll_delay self))
          (record_event (ELog (LogCycleError e)) w2))).
Proof.
  intros Hcfg Hfid Hagg Hprofile Hbefore Hcast.
  assert (Hrun : handleInteractions E self w = (Throw e, w2)).
  { unfold handleInteractions. rewrite bind_run.
    unfold log at 1, emit at 1, modify at 1.
    destruct (Z.eqb_spec (agent_fid self) 0) as [Hzero|_];
      [contradiction (Hfid Hzero)|].
    rewrite Hcfg, bind_run, Hagg, bind_run.
    unfold client_getProfile, call at 1. rewrite Hprofile.
    rewrite bind_run, for_of_app, bind_run, Hbefore. cbn [for_of].
    rewrite bind_run, Hcast. reflexivity. }
  split; [exact Hrun|]. split.
  - pose proof (aggregate_keeps_clock E cfg (agent_fid self)
                  (record_event (ELog LogChecking) w)) as [_ Ha].
    rewrite Hagg in Ha. unfold snd in Ha.
    pose proof (candidates_keep_clock E self agent before
                  (record_event (EGetProfile (agent_fid self)) wa)) as [_ Hb].
    rewrite Hbefore in Hb. unfold snd in Hb.
    pose proof (candidates_keep_clock E self agent [cast] w1) as [_ Hc].
    cbn [for_of] in Hc. rewrite bind_run, Hcast in Hc. unfold snd in Hc.
    rewrite Hc, Hb. exact Ha.
  - rewrite loop_unfold, Hrun. reflexivity.
Qed.

Lemma candidate_error_ends_the_cycle_witness :
  let E := with_classifier (fun _ _ => Throw (Failure "model down"))
             (Scenario.env [Scenario.own_post; Scenario.post; Scenario.own_post]
                [] 5000 Scenario.reply (Ok [])) in
  let self := Scenario.manager false [] in
  let w2 := snd (handleInteractions E self Scenario.w0) in
  handleInteractions E self Scenario.w0 = (Throw (Failure "model down"), w2) /\
  lastInteractionTimestamp w2 = None /\
  count_events
    (fun ev =>
       match ev with
       | EGetMemoryById id => String.eqb id "0xb2/agent-uuid"
       | _ => false
       end)
    (trace w2) = 1%nat /\
  handleInteractionsLoop E self Scenario.w0 =
    (Ok tt,
     set_timeout (Some 120000)
       (record_event (ESetTimeout 120000)
          (record_event (ELog (LogCycleError (Failure "model down"))) w2))).
Proof.
  cbv zeta.
  set (E := with_classifier (fun _ _ => Throw (Failure "model down"))
              (Scenario.env [Scenario.own_post; Scenario.post; Scenario.own_post]
                 [] 5000 Scenario.reply (Ok []))).
  set (self := Scenario.manager false []).
  set (cfg := mkConfig (Some 42) None false []).
  set (wa := snd (aggregate_candidates E cfg 42
                    (record_event (ELog LogChecking) Scenario.w0))).
  set (w1 := snd (for_of [Scenario.own_post]
                    (process_candidate E self Scenario.agent)
                    (record_event (EGetProfile 42) wa))).
  set (w2 := snd (process_candidate E self Scenario.agent Scenario.post w1)).
  assert (Hw2 : snd (handleInteractions E self Scenario.w0) = w2)
    by (vm_compute; reflexivity).
  rewrite Hw2.
  destruct (candidate_error_ends_the_cycle E self cfg Scenario.agent
              [Scenario.own_post] Scenario.post [Scenario.own_post]
              Scenario.w0 wa w1 w2 (Failure "model down"))
    as (Hrun & Hstamp & Hloop).
  - reflexivity.
  - vm_compute. discriminate.
  - vm_compute. reflexivity.
  - reflexivity.
  - vm_compute. reflexivity.
  - vm_compute. reflexivity.
  - split; [exact Hrun|]. split; [exact Hstamp|].
    split; [vm_compute; reflexivity|exact Hloop].
Defined.

(** ** Concrete runs of the further properties *)

Lemma empty_text_is_skipped_witness :
  let E := Scenario.env [] [] 5000 Scenario.reply (Ok []) in
  let self := Scenario.manager false [] in
  let cast := mkCast "0xe1" 7 "" Scenario.alice None (Some 1000) in
  let w' := snd (process_candidate E self Scenario.agent cast Scenario.w0) in
  store w' = [] /\
  lastProcessedCasts w' = ∅ /\
  exists evs,
    trace w' = evs ++ [] /\ forallb gate_event evs = true.
Proof.
  cbv zeta.
  apply (empty_text_is_skipped
           (Scenario.env [] [] 5000 Scenario.reply (Ok []))
           (Scenario.manager false []) Scenario.agent
           (mkCast "0xe1" 7 "" Scenario.alice None (Some 1000))).
  - cbn. lia.
  - reflexivity.
Defined.

Lemma loop_over_known_candidates_only_reads_witness :
  let E := Scenario.env [] [] 5000 Scenario.reply
             (Ok [Scenario.sent "0xc1" "all good here"]) in
  let self := Scenario.manager false [] in
  let w := snd (process_candidate E self Scenario.agent Scenario.post
                  Scenario.w0) in
  exists w',
    for_of [Scenario.post; Scenario.post]
      (process_candidate E self Scenario.agent) w = (Ok tt, w') /\
    store w' = store w /\
    lastProcessedCasts w' = lastProcessedCasts w /\
    trace w' =
      [EGetMemoryById "0xa1/agent-uuid"; EGetMemoryById "0xa1/agent-uuid"]
      ++ trace w.
Proof.
  cbv zeta.
  apply (loop_over_known_candidates_only_reads
           (Scenario.env [] [] 5000 Scenario.reply
              (Ok [Scenario.sent "0xc1" "all good here"]))
           (Scenario.manager false []) Scenario.agent
           [Scenario.post; Scenario.post]).
  repeat constructor; unfold known; vm_compute; discriminate.
Defined.

(** ** The aggregation only reads, and what it selects passed the filter *)

Lemma aggregate_quiet E cfg agentFid :
  steps_in (quiet_step aggregation_event) (aggregate_candidates E cfg agentFid).
Proof.
  pose proof (quiet_step_refl aggregation_event) as Hr.
  pose proof (quiet_step_trans aggregation_event) as Ht.
  pose proof (quiet_step_event aggregation_event) as He.
  unfold_manager. steps.
  all: reflexivity.
Qed.

Lemma user_casts_quiet E agentFid user :
  steps_in (quiet_step aggregation_event) (user_casts E agentFid user).
Proof.
  pose proof (quiet_step_refl aggregation_event) as Hr.
  pose proof (quiet_step_trans aggregation_event) as Ht.
  pose proof (quiet_step_event aggregation_event) as He.
  unfold_manager. steps.
  all: reflexivity.
Qed.

Lemma fetch_user_quiet E agentFid user m :
  steps_in (quiet_step aggregation_event) (fetch_user E agentFid user m).
Proof.
  pose proof (quiet_step_refl aggregation_event) as Hr.
  pose proof (quiet_step_trans aggregation_event) as Ht.
  pose proof (quiet_step_event aggregation_event) as He.
  unfold_manager. steps.
  all: reflexivity.
Qed.

Lemma select_one_quiet E entry acc :
  steps_in (quiet_step aggregation_event) (select_one E entry acc).
Proof.
  pose proof (quiet_step_refl aggregation_event) as Hr.
  pose proof (quiet_step_trans aggregation_event) as Ht.
  pose proof (quiet_step_event aggregation_event) as He.
  destruct entry as [user casts]. unfold_manager. steps.
  all: reflexivity.
Qed.

(** What the filter keeps passed its test, against the set the filter
    started with, at a reading of the clock. *)
Lemma filter_kept_valid E casts :
  forall w kept w',
    filter_m (filter_callback E) casts w = (Ok kept, w') ->
    Forall (fun nc => exists tr,
              cast_is_valid (lastProcessedCasts w) (date_now E tr) nc = true)
      kept.
Proof.
  induction casts as [|cast casts IH]; intros w kept w'; simpl.
  - intros [= <- _]. constructor.
  - rewrite bind_run, filter_callback_run, bind_run.
    set (w1 := record_event _ (record_event EDateNow w)).
    destruct (filter_m (filter_callback E) casts w1) as [[rest|e] w2] eqn:Hrest;
      [|discriminate].
    specialize (IH _ _ _ Hrest).
    destruct (cast_is_valid (lastProcessedCasts w) (date_now E (trace w)) cast)
      eqn:Hvalid; intros [= <- _].
    + constructor; [exists (trace w); exact Hvalid|exact IH].
    + exact IH.
Qed.

Lemma clock_read_widen al a w w' b tr :
  grows_by al a w -> grows_by al w' b ->
  clock_read w w' tr -> clock_read a b tr.
Proof.
  intros (ea & Ha & _) (eb & Hb & _) (e1 & e2 & Htr & Hw').
  exists (e1 ++ ea), (eb ++ e2). split.
  - rewrite Htr, Ha. apply app_assoc.
  - rewrite Hb, Hw'. apply app_assoc.
Qed.

Lemma tracked_ok_widen E processed al a w w' b c :
  grows_by al a w -> grows_by al w' b ->
  tracked_ok E processed w w' c -> tracked_ok E processed a b c.
Proof.
  intros Ha Hb (Hnew & Hlen & t & tr & Ht & Hread & Hrecent).
  split; [exact Hnew|]. split; [exact Hlen|]. exists t, tr.
  split; [exact Ht|]. split; [|exact Hrecent].
  exact (clock_read_widen al a w w' b tr Ha Hb Hread).
Qed.

Lemma entries_ok_widen E processed al a w w' b m :
  grows_by al a w -> grows_by al w' b ->
  entries_ok E processed w w' m -> entries_ok E processed a b m.
Proof.
  intros Ha Hb Hm. eapply List.Forall_impl; [|exact Hm].
  intros entry Hentry. eapply List.Forall_impl; [|exact Hentry].
  intros c. exact (tracked_ok_widen E processed al a w w' b c Ha Hb).
Qed.

(** What the filter keeps passed its test against the set the filter
    started with, at a reading of the clock the filter made. *)
Lemma filter_kept_read E casts :
  forall w kept w',
    filter_m (filter_callback E) casts w = (Ok kept, w') ->
    Forall (fun nc => exists tr,
              clock_read w w' tr /\
              cast_is_valid (lastProcessedCasts w) (date_now E tr) nc = true)
      kept.
Proof.
  induction casts as [|cast casts IH]; intros w kept w'; simpl.
  - intros [= <- _]. constructor.
  - rewrite bind_run, filter_callback_run, bind_run.
    set (w1 := record_event _ (record_event EDateNow w)).
    destruct (filter_m_callback_total E casts w1)
      as (rest & w2 & Hrest & _ & _ & evs & Htr).
    rewrite Hrest.
    pose proof (IH _ _ _ Hrest) as Hkept.
    assert (Hw1 : grows_by any_event w w1) by (subst w1; solve_grows).
    assert (Hrest' :
              Forall (fun nc => exists tr,
                        clock_read w w2 tr /\
                        cast_is_valid (lastProcessedCasts w) (date_now E tr) nc
                        = true) rest).
    { eapply List.Forall_impl; [|exact Hkept].
      intros nc (tr & Hread & Hv). exists tr. split; [|exact Hv].
      exact (clock_read_widen any_event w w1 w2 w2 tr Hw1
               (grows_by_refl any_event w2) Hread). }
    destruct (cast_is_valid (lastProcessedCasts w) (date_now E (trace w)) cast)
      eqn:Hvalid; intros [= <- <-]; [|exact Hrest'].
    constructor; [|exact Hrest'].
    exists (trace w). split; [|exact Hvalid].
    exists [], (evs ++ [ELog (cast_checks_log (lastProcessedCasts w)
                               (date_now E (trace w)) cast)]).
    split; [reflexivity|]. rewrite Htr, <- app_assoc. reflexivity.
Qed.

Lemma profiles_quiet E valid :
  steps_in (quiet_step aggregation_event)
    (map_m (fun cast =>
              p <- client_getProfile E (n_author_fid cast) ;;
              ret (to_cast cast p)) valid).
Proof.
  pose proof (quiet_step_refl aggregation_event) as Hr.
  pose proof (quiet_step_trans aggregation_event) as Ht.
  pose proof (quiet_step_event aggregation_event) as He.
  unfold client_getProfile. steps.
  all: reflexivity.
Qed.

Lemma record_user_casts_quiet user valid casts m :
  steps_in (quiet_step aggregation_event)
    (record_user_casts user valid casts m).
Proof.
  pose proof (quiet_step_refl aggregation_event) as Hr.
  pose proof (quiet_step_trans aggregation_event) as Ht.
  pose proof (quiet_step_event aggregation_event) as He.
  unfold record_user_casts, log. steps.
  all: reflexivity.
Qed.

Lemma select_loop_quiet E castsByUser acc :
  steps_in (quiet_step aggregation_event)
    (for_of_acc castsByUser (select_one E) acc).
Proof.
  pose proof (quiet_step_refl aggregation_event) as Hr.
  pose proof (quiet_step_trans aggregation_event) as Ht.
  pose proof (quiet_step_event aggregation_event) as He.
  apply steps_for_of_acc; [assumption|assumption|].
  intros entry s. apply select_one_quiet.
Qed.

(** The casts kept for a tracked author passed the filter during the turn
    of that author. *)
Lemma user_casts_read E agentFid user w valid casts w1 :
  user_casts E agentFid user w = (Ok (Some (valid, casts)), w1) ->
  Forall (tracked_ok E (lastProcessedCasts w) w w1) casts.
Proof.
  unfold user_casts. rewrite bind_run. unfold call at 1.
  destruct (lookupUserByUsername E user agentFid (trace w)) as [[userFid|]|e];
    [| discriminate | discriminate].
  rewrite bind_run. unfold call at 1.
  match goal with
  | |- context [fetchCastsForUser E ?a ?b ?c ?d ?tr] =>
      destruct (fetchCastsForUser E a b c d tr) as [fetched|e]; [|discriminate]
  end.
  rewrite bind_run.
  match goal with
  | |- context [filter_m (filter_callback E) fetched ?w0] => set (wf := w0)
  end.
  assert (Hwf : grows_by aggregation_event w wf) by (subst wf; solve_grows).
  destruct (filter_m (filter_callback E) fetched wf) as [[kept|e] w2]
    eqn:Hfilter; [|discriminate].
  pose proof (filter_kept_read E fetched wf kept w2 Hfilter) as Hkept.
  rewrite bind_run.
  pose proof (profiles_quiet E kept w2) as (Hg & _ & _).
  destruct (map_m _ kept w2) as [[converted|e] w3] eqn:Hmap; [|discriminate].
  unfold snd in Hg.
  intros [= <- <- <-].
  pose proof (map_m_to_cast_shape E _ _ _ _ Hmap) as Hshape.
  clear Hmap Hfilter. revert Hkept.
  induction Hshape as [|nc c kept' casts' [p ->] _ IH]; intros Hkept;
    [constructor|].
  inversion Hkept as [|? ? (tr & Hread & Hnc) Hrest]; subst.
  constructor; [|exact (IH Hrest)].
  apply cast_is_valid_iff in Hnc as (Hnew & (t & Ht & Hrecent) & Hlen).
  split; [exact Hnew|]. split; [exact Hlen|]. exists t, tr.
  split; [exact Ht|]. split; [|exact Hrecent].
  exact (clock_read_widen aggregation_event w wf w2 w3 tr Hwf Hg Hread).
Qed.

Lemma entries_ok_set E processed w w' user casts m :
  Forall (tracked_ok E processed w w') casts ->
  entries_ok E processed w w' m ->
  entries_ok E processed w w' (map_set user casts m).
Proof.
  intros Hcasts Hm. apply Forall_forall. intros [u cs] Hin.
  apply map_set_entries in Hin as [[_ ->]|Hin]; [exact Hcasts|].
  exact (proj1 (Forall_forall _ _) Hm (u, cs) Hin).
Qed.

Lemma fetch_user_read E agentFid user m w0 w :
  grows_by aggregation_event w0 w ->
  lastProcessedCasts w = lastProcessedCasts w0 ->
  entries_ok E (lastProcessedCasts w0) w0 w m ->
  exists m' w',
    fetch_user E agentFid user m w = (Ok m', w') /\
    grows_by aggregation_event w0 w' /\
    lastProcessedCasts w' = lastProcessedCasts w0 /\
    entries_ok E (lastProcessedCasts w0) w0 w' m'.
Proof.
  intros Hg0 Hp0 Hm.
  pose proof (fetch_user_quiet E agentFid user m w) as Hq.
  destruct (fetch_user_spec E agentFid user m w)
    as (m' & w' & Hrun & Hcases & _).
  rewrite Hrun in Hq. destruct Hq as (Hgw & _ & Hpw). unfold snd in Hgw, Hpw.
  exists m', w'. split; [exact Hrun|].
  split; [exact (grows_by_trans _ _ _ _ Hg0 Hgw)|].
  split; [rewrite Hpw; exact Hp0|].
  assert (Hm' : entries_ok E (lastProcessedCasts w0) w0 w' m).
  { exact (entries_ok_widen E _ aggregation_event w0 w0 w w' m
             (grows_by_refl _ w0) Hgw Hm). }
  destruct Hcases as [->|(valid & casts & _ & Hfetch & ->)]; [exact Hm'|].
  apply entries_ok_set; [|exact Hm'].
  destruct (user_casts E agentFid user w) as [r w1] eqn:Hu.
  simpl in Hfetch. subst r.
  pose proof (user_casts_read _ _ _ _ _ _ _ Hu) as Hcasts.
  assert (Hg1 : grows_by aggregation_event w1 w').
  { revert Hrun. unfold fetch_user, try_catch. rewrite bind_run, Hu.
    pose proof (record_user_casts_quiet user valid casts m w1) as (Hgr & _).
    destruct (record_user_casts user valid casts m w1) as [[m2|e] w2];
      unfold snd in Hgr.
    - intros [= _ <-]. exact Hgr.
    - run_m. intros [= _ <-].
      eapply grows_by_trans; [exact Hgr|]. solve_grows. }
  rewrite Hp0 in Hcasts.
  eapply List.Forall_impl; [|exact Hcasts].
  intros c. exact (tracked_ok_widen E _ aggregation_event w0 w w1 w' c Hg0 Hg1).
Qed.

Lemma fetch_loop_read E agentFid users w0 :
  forall m w,
    grows_by aggregation_event w0 w ->
    lastProcessedCasts w = lastProcessedCasts w0 ->
    entries_ok E (lastProcessedCasts w0) w0 w m ->
    exists m' w',
      for_of_acc users (fetch_user E agentFid) m w = (Ok m', w') /\
      grows_by aggregation_event w0 w' /\
      lastProcessedCasts w' = lastProcessedCasts w0 /\
      entries_ok E (lastProcessedCasts w0) w0 w' m'.
Proof.
  induction users as [|user users IH]; intros m w Hg Hp Hm.
  - exists m, w. split; [reflexivity|]. split; [exact Hg|].
    split; [exact Hp|exact Hm].
  - rewrite for_of_acc_cons, bind_run.
    destruct (fetch_user_read E agentFid user m w0 w Hg Hp Hm)
      as (m1 & w1 & Hrun & Hg1 & Hp1 & Hm1).
    rewrite Hrun. exact (IH m1 w1 Hg1 Hp1 Hm1).
Qed.


Lemma user_casts_valid E agentFid user w valid casts w1 :
  user_casts E agentFid user w = (Ok (Some (valid, casts)), w1) ->
  Forall (fun nc => exists tr,
            cast_is_valid (lastProcessedCasts w) (date_now E tr) nc = true)
    valid /\
  Forall2 (fun nc c => exists p, c = to_cast nc p) valid casts.
Proof.
  unfold user_casts. rewrite bind_run. unfold call at 1.
  destruct (lookupUserByUsername E user agentFid (trace w)) as [[userFid|]|e];
    [| discriminate | discriminate].
  rewrite bind_run. unfold call at 1.
  match goal with
  | |- context [fetchCastsForUser E ?a ?b ?c ?d ?tr] =>
      destruct (fetchCastsForUser E a b c d tr) as [fetched|e]; [|discriminate]
  end.
  rewrite bind_run.
  match goal with
  | |- context [filter_m (filter_callback E) fetched ?w0] =>
      destruct (filter_m (filter_callback E) fetched w0) as [[kept|e] w2]
        eqn:Hfilter; [|discriminate];
      pose proof (filter_kept_valid E fetched w0 kept w2 Hfilter) as Hkept
  end.
  cbn [lastProcessedCasts record_event] in Hkept.
  rewrite bind_run.
  destruct (map_m _ kept w2) as [[converted|e] w3] eqn:Hmap; [|discriminate].
  intros [= <- <- _]. split; [exact Hkept|].
  exact (map_m_to_cast_shape E _ _ _ _ Hmap).
Qed.





Lemma js_index_in {A} (xs : list A) i x : js_index xs i = Some x -> In x xs.
Proof.
  unfold js_index. destruct (i <? 0); [discriminate|].
  intros H. apply list_elem_of_In. exact (list_elem_of_lookup_2 _ _ _ H).
Qed.

Lemma select_loop_members E (P : Cast -> Prop) castsByUser :
  Forall (fun entry => Forall P (snd entry)) castsByUser ->
  forall acc w selected w',
    Forall P acc ->
    for_of_acc castsByUser (select_one E) acc w = (Ok selected, w') ->
    Forall P selected.
Proof.
  induction 1 as [|[user casts] rest Hcasts _ IH]; intros acc w selected w' Hacc.
  - intros [= <- _]. exact Hacc.
  - rewrite for_of_acc_cons, bind_run.
    destruct (select_one E (user, casts) acc w) as [[acc1|e] w1] eqn:Hone;
      [|discriminate].
    apply IH. revert Hone. unfold select_one.
    destruct (0 <? length casts)%nat; [|intros [= <- _]; exact Hacc].
    rewrite bind_run. unfold mathRandom, call at 1. cbv beta iota zeta.
    match goal with
    | |- context [js_index casts ?i] =>
        destruct (js_index casts i) as [c|] eqn:Hidx; [|discriminate]
    end.
    run_m. intros [= <- _]. apply Forall_app. split; [exact Hacc|].
    constructor; [|constructor].
    simpl in Hcasts.
    exact (proj1 (List.Forall_forall _ _) Hcasts c (js_index_in _ _ _ Hidx)).
Qed.

(** X10.  The aggregation only reads, whether it returns or throws: it
    leaves the store and [lastProcessedCasts] as they were and makes only
    gateway reads, clock and random readings and log lines.  When it
    returns, the candidates are the mentions, unfiltered, followed by
    selections that each passed the filter: not in [lastProcessedCasts],
    a text longer than ten UTF-16 code units, and less than a day old at a
    [Date.now()] reading made during this aggregation. *)
Theorem selections_passed_the_filter E cfg agentFid w :
  let '(r, w') := aggregate_candidates E cfg agentFid w in
  store w' = store w /\
  lastProcessedCasts w' = lastProcessedCasts w /\
  (exists evs,
     trace w' = evs ++ trace w /\ forallb aggregation_event evs = true) /\
  forall candidates,
    r = Ok candidates ->
    exists mentions selected,
      getMentions E agentFid 10 (trace w) = Ok mentions /\
      candidates = mentions ++ selected /\
      Forall (tracked_ok E (lastProcessedCasts w) w w') selected.
Proof.
  destruct (aggregate_candidates E cfg agentFid w) as [r w'] eqn:Hrun.
  pose proof (aggregate_quiet E cfg agentFid w) as Hq.
  rewrite Hrun in Hq. destruct Hq as (Hg & Hs & Hp). unfold snd in Hg, Hs, Hp.
  split; [exact Hs|]. split; [exact Hp|]. split; [exact Hg|].
  intros candidates ->. revert Hrun.
  unfold aggregate_candidates. rewrite bind_run. unfold call at 1.
  destruct (getMentions E agentFid 10 (trace w)) as [mentions|e];
    [|discriminate].
  cbv zeta.
  destruct (0 <? length (FARCASTER_TARGET_USERS cfg))%nat.
  2:{ intros [= <- _]. exists mentions, []. rewrite app_nil_r.
      repeat split. constructor. }
  rewrite bind_run. unfold log at 1, emit at 1, modify at 1.
  set (w0 := record_event _ (record_event (EGetMentions agentFid 10) w)).
  assert (Hw0 : grows_by aggregation_event w w0) by (subst w0; solve_grows).
  rewrite bind_run.
  destruct (fetch_loop_read E agentFid (FARCASTER_TARGET_USERS cfg) w [] w0)
    as (castsByUser & w1 & Hloop & Hg1 & Hp1 & Hentries);
    [exact Hw0|reflexivity|constructor|].
  rewrite Hloop, bind_run. unfold select_casts.
  pose proof (select_loop_quiet E castsByUser [] w1) as (Hg2 & _).
  destruct (for_of_acc castsByUser (select_one E) [] w1)
    as [[selected|e] w2] eqn:Hsel; [|discriminate].
  unfold snd in Hg2.
  intros [= <- <-]. exists mentions, selected.
  split; [reflexivity|]. split; [reflexivity|].
  pose proof (select_loop_members E _ castsByUser Hentries [] w1 selected w2
                (List.Forall_nil _) Hsel) as Hok.
  eapply List.Forall_impl; [|exact Hok].
  intros c.
  exact (tracked_ok_widen E _ aggregation_event w w w1 w2 c
           (grows_by_refl _ w) Hg2).
Qed.


(** X12.  The "Found ... valid casts" line reads [validCasts[0]] and turns
    its timestamp into an ISO string, which throws on an invalid date.  It
    never does here: when the turn of a tracked author ends with casts to
    keep, the first survivor of the filter exists and is dated, since an
    undated cast fails the recency test.  So the entry is set, the line is
    logged, and the [catch] of line 154 is not entered. *)
Theorem found_line_never_throws E agentFid user castsByUser w valid casts w1 :
  user_casts E agentFid user w = (Ok (Some (valid, casts)), w1) ->
  casts <> [] ->
  exists first rest iso,
    valid = first :: rest /\
    n_timestamp first = Some iso /\
    fetch_user E agentFid user castsByUser w =
      (Ok (map_set user casts castsByUser),
       record_event
         (ELog (LogFoundValid (length casts) user
                  (substring0 100 (n_text first)) iso
                  (negb (bool_decide (is_Some (lastInteractionTimestamp w1))))))
         w1).
Proof.
  intros Hrun Hcasts.
  destruct (user_casts_valid _ _ _ _ _ _ _ Hrun) as [Hvalid Hshape].
  destruct Hshape as [|first c rest cs _ _]; [contradiction Hcasts; reflexivity|].
  inversion Hvalid as [|? ? [tr Hfirst] _]; subst.
  apply cast_is_valid_iff in Hfirst as (_ & (iso & Hiso & _) & _).
  exists first, rest, iso. split; [reflexivity|]. split; [exact Hiso|].
  unfold fetch_user, try_catch. rewrite bind_run, Hrun.
  unfold record_user_casts.
  change (0 <? length (c :: cs))%nat with true. cbv iota.
  rewrite Hiso. reflexivity.
Qed.

Lemma selections_passed_the_filter_witness :
  let E := Scenario.env [Scenario.post] Scenario.fetched Scenario.now0
             Scenario.reply (Ok []) in
  let cfg := mkConfig (Some 42) None false ["alice"] in
  let '(r, w') := aggregate_candidates E cfg 42 Scenario.w0 in
  (exists c, r = Ok [Scenario.post; c]) /\
  store w' = [] /\
  lastProcessedCasts w' = ∅ /\
  (exists evs, trace w' = evs ++ [] /\ forallb aggregation_event evs = true) /\
  forall candidates,
    r = Ok candidates ->
    exists mentions selected,
      mentions = [Scenario.post] /\
      candidates = mentions ++ selected /\
      Forall (tracked_ok E ∅ Scenario.w0 w') selected.
Proof.
  cbv zeta.
  pose proof (selections_passed_the_filter
                (Scenario.env [Scenario.post] Scenario.fetched Scenario.now0
                   Scenario.reply (Ok []))
                (mkConfig (Some 42) None false ["alice"]) 42 Scenario.w0) as H.
  assert (Hr : exists c,
             fst (aggregate_candidates
                    (Scenario.env [Scenario.post] Scenario.fetched Scenario.now0
                       Scenario.reply (Ok []))
                    (mkConfig (Some 42) None false ["alice"]) 42 Scenario.w0)
             = Ok [Scenario.post; c])
    by (eexists; vm_compute; reflexivity).
  destruct (aggregate_candidates _ _ 42 Scenario.w0) as [r w'].
  destruct H as (Hs & Hp & Hg & Hsel).
  split; [exact Hr|]. split; [exact Hs|]. split; [exact Hp|].
  split; [exact Hg|].
  intros candidates Hc.
  destruct (Hsel candidates Hc) as (mentions & selected & Hm & Heq & Hok).
  exists mentions, selected.
  split; [injection Hm as <-; reflexivity|]. split; [exact Heq|exact Hok].
Defined.


Lemma found_line_never_throws_witness :
  let E := Scenario.env [] Scenario.fetched Scenario.now0 Scenario.reply
             (Ok []) in
  exists first rest iso,
    map (fun nc => to_cast nc Scenario.alice)
      (filter (cast_is_valid ∅ Scenario.now0) Scenario.fetched)
    <> [] /\
    filter (cast_is_valid ∅ Scenario.now0) Scenario.fetched = first :: rest /\
    n_timestamp first = Some iso /\
    fst (fetch_user E 42 "alice" [] Scenario.w0) =
      Ok [("alice",
           map (fun nc => to_cast nc Scenario.alice)
             (filter (cast_is_valid ∅ Scenario.now0) Scenario.fetched))].
Proof.
  cbv zeta.
  set (E := Scenario.env [] Scenario.fetched Scenario.now0 Scenario.reply
              (Ok [])).
  set (valid := filter (cast_is_valid ∅ Scenario.now0) Scenario.fetched).
  set (casts := map (fun nc => to_cast nc Scenario.alice) valid).
  assert (Hrun : user_casts E 42 "alice" Scenario.w0 =
                 (Ok (Some (valid, casts)),
                  snd (user_casts E 42 "alice" Scenario.w0)))
    by (vm_compute; reflexivity).
  assert (Hcasts : casts <> []) by (vm_compute; discriminate).
  destruct (found_line_never_throws E 42 "alice" [] Scenario.w0 valid casts _
              Hrun Hcasts) as (first & rest & iso & Hvalid & Hiso & Hfetch).
  exists first, rest, iso. split; [exact Hcasts|]. split; [exact Hvalid|].
  split; [exact Hiso|]. rewrite Hfetch. reflexivity.
Defined.

(** ** A generation that answers with no text *)

Lemma respond_stage_reply_free E self agent cast memory thread :
  steps_in (grows_by (fun ev => negb (after_reply_event ev)))
    (respond_stage E self agent cast memory thread).
Proof.
  set (ok := fun ev => negb (after_reply_event ev)).
  pose proof (grows_by_refl ok) as Hr.
  pose proof (grows_by_trans ok) as Ht.
  pose proof (grows_by_event ok) as He.
  unfold respond_stage, getMemoryById, createMemory. steps.
  all: try reflexivity.
  all: apply grows_by_same_trace; reflexivity.
Qed.

(** X13.  When the generation never answers with a text, [handleCast] ends
    at the test of line 346 at the latest, whatever the dry-run flag: no
    cast is sent, the "Dry run" line is not logged, the state is not
    refreshed and the action pipeline is not run.  [lastProcessedCasts]
    stays as it was, and the store gains at most the inbound record of the
    cast, so the next cycle meets a known cast. *)
Theorem empty_reply_ends_the_pass E self agent cast memory thread w :
  silent_generation E ->
  let '(r, w') := handleCast E self agent cast memory thread w in
  lastProcessedCasts w' = lastProcessedCasts w /\
  (store w' = store w \/
   (store_lookup (memory_id E self cast) (store w) = None /\
    store w' = store w ++ [inbound_record E self cast (m_roomId memory)])) /\
  (exists evs,
     trace w' = evs ++ trace w /\
     forallb (fun ev => negb (after_reply_event ev)) evs = true) /\
  (forall v, r = Ok v ->
     v = None \/
     (v = Some (mkContent "" None (Some "IGNORE") None) /\ trace w' =
        ELog (LogSkipNoText (hash cast)) :: trace w)).
Proof.
  intros Hsilent.
  pose proof (handleCast_stages E self agent cast memory thread w) as Hd.
  destruct (handleCast E self agent cast memory thread w) as [r w'].
  destruct (fid (profile cast) =? fid agent).
  { revert Hd. run_m. intros [= -> ->].
    split; [reflexivity|]. split; [left; reflexivity|].
    split; [solve_grows|]. intros v [= <-]. left. reflexivity. }
  destruct (negb (truthy (c_text (m_content memory)))).
  { revert Hd. run_m. intros [= -> ->].
    split; [reflexivity|]. split; [left; reflexivity|].
    split; [solve_grows|]. intros v [= <-]. right. split; reflexivity. }
  unfold bind in Hd.
  pose proof (respond_stage_spec E self agent cast memory thread w) as Hs.
  pose proof (respond_stage_reply_free E self agent cast memory thread w) as Hg.
  destruct (respond_stage E self agent cast memory thread w)
    as [[[state rc]|e] w1]; unfold snd in Hg.
  - destruct Hs as (Hp & Hst & _ & ctx0 & evs & g0 & _ & _ & Hgen & Hrc).
    assert (Htext : truthy (c_text rc) = false)
      by (subst rc; exact (Hsilent _ _ _ Hgen)).
    unfold after_generation in Hd. rewrite Htext in Hd.
    revert Hd. run_m. intros [= -> ->].
    split; [exact Hp|]. split; [exact Hst|]. split; [exact Hg|].
    intros v [= <-]. left. reflexivity.
  - destruct Hs as (Hp & Hst & _). injection Hd as -> ->.
    split; [exact Hp|]. split; [exact Hst|]. split; [exact Hg|].
    intros v Hv. discriminate Hv.
Qed.

Lemma empty_reply_ends_the_pass_witness :
  let E := Scenario.env [] [] 5000 (mkContent "" None (Some "NONE") None)
             (Ok [Scenario.sent "0xc1" "never sent"]) in
  let self := Scenario.manager false [] in
  let memory :=
    mkMemory None "uuid:7" "agent-uuid" (room_of E self Scenario.post)
      (mkContent (text Scenario.post) None None None) in
  let '(r, w') :=
    handleCast E self Scenario.agent Scenario.post memory [] Scenario.w0 in
  lastProcessedCasts w' = ∅ /\
  (store w' = [] \/
   (store_lookup (memory_id E self Scenario.post) [] = None /\
    store w' = [] ++ [inbound_record E self Scenario.post (m_roomId memory)])) /\
  (exists evs,
     trace w' = evs ++ [] /\
     forallb (fun ev => negb (after_reply_event ev)) evs = true) /\
  (forall v, r = Ok v ->
     v = None \/
     (v = Some (mkContent "" None (Some "IGNORE") None) /\ trace w' =
        ELog (LogSkipNoText (hash Scenario.post)) :: [])).
Proof.
  cbv zeta.
  apply (empty_reply_ends_the_pass
           (Scenario.env [] [] 5000 (mkContent "" None (Some "NONE") None)
              (Ok [Scenario.sent "0xc1" "never sent"]))
           (Scenario.manager false []) Scenario.agent Scenario.post
           (mkMemory None "uuid:7" "agent-uuid"
              (room_of _ (Scenario.manager false []) Scenario.post)
              (mkContent (text Scenario.post) None None None))
           [] Scenario.w0).
  intros context tr g [= <-]. reflexivity.
Defined.

(** ** What is sent, and to whom *)

Lemma sends_refl P w : sends_only P w w.
Proof. exists []. split; [reflexivity|]. intros a []. Qed.

Lemma sends_trans P a b c :
  sends_only P a b -> sends_only P b c -> sends_only P a c.
Proof.
  intros (e1 & H1 & A1) (e2 & H2 & A2). exists (e2 ++ e1). split.
  - rewrite H2, H1. apply app_assoc.
  - intros x Hin. apply in_app_or in Hin as [Hin|Hin]; auto.
Qed.

Lemma sends_event P (allowed := no_dispatch) ev w :
  allowed ev = true -> sends_only P w (record_event ev w).
Proof.
  intros Hev. exists [ev]. split; [reflexivity|].
  intros a [Heq|[]]. subst ev. discriminate Hev.
Qed.

Lemma sends_same P w w' : trace w' = trace w -> sends_only P w w'.
Proof. intros H. exists []. split; [exact H|]. intros a []. Qed.

Lemma sends_weaken (P Q : SendArgs -> Prop) w w' :
  (forall a, P a -> Q a) -> sends_only P w w' -> sends_only Q w w'.
Proof.
  intros HPQ (evs & Htr & Hall). exists evs. split; [exact Htr|].
  intros a Hin. exact (HPQ a (Hall a Hin)).
Qed.

Lemma sends_steps_weaken {A} (P Q : SendArgs -> Prop) (m : M A) :
  (forall a, P a -> Q a) ->
  steps_in (sends_only P) m -> steps_in (sends_only Q) m.
Proof. intros HPQ Hm w. exact (sends_weaken P Q _ _ HPQ (Hm w)). Qed.

Lemma with_reply_target_set memoryId content :
  truthy memoryId = true ->
  truthy_opt (c_inReplyTo (with_reply_target memoryId content)) = true.
Proof.
  intros Hid. unfold with_reply_target. rewrite Hid.
  destruct (truthy_opt (c_inReplyTo content)) eqn:Hc; simpl; assumption.
Qed.

Lemma callback_sends E self cast roomId memoryId content :
  truthy memoryId = true ->
  steps_in (sends_only (answers_cast self cast roomId))
    (callback E self cast roomId memoryId content).
Proof.
  intros Hid w. rewrite callback_unfold. cbv zeta.
  set (a := send_args self cast roomId (with_reply_target memoryId content)).
  assert (Ha : answers_cast self cast roomId a).
  { repeat split. apply with_reply_target_set, Hid. }
  assert (Hsend : forall evs w',
            trace w' = evs ++ ESendCast a :: trace w ->
            forallb no_dispatch evs = true ->
            sends_only (answers_cast self cast roomId) w w').
  { intros evs w' Htr Hevs. exists (evs ++ [ESendCast a]). split.
    - rewrite Htr, <- app_assoc. reflexivity.
    - intros x Hin. apply in_app_or in Hin as [Hin|[[= <-]|[]]]; [|exact Ha].
      contradiction (no_dispatch_not_in evs x Hevs Hin). }
  destruct (sendCast E a (trace w)) as [[|first rest]|e]; unfold snd.
  - apply (Hsend [ELog (LogSendError (TypeError "results[0] is undefined"))]);
      reflexivity.
  - eapply Hsend.
    + rewrite store_all_trace. reflexivity.
    + apply (no_dispatch_created (_ :: _)).
  - apply (Hsend [ELog (LogSendError e)]); reflexivity.
Qed.

(** X14.  Whatever is generated and whatever the action pipeline hands
    back to the callback, every [sendCast] of [handleCast] answers the cast
    in hand: its reply target is that cast's hash and author, it is signed
    with the manager's signer, carries the cast's profile and the room of
    the message, and its content names a record it replies to.  Over a
    whole poll cycle every [sendCast] answers, in this sense, one cast in
    the room derived from its hash. *)
Theorem every_dispatch_answers_its_cast E self :
  uuids_nonempty E ->
  (forall agent cast memory thread w,
     sends_only (answers_cast self cast (m_roomId memory)) w
       (snd (handleCast E self agent cast memory thread w))) /\
  (forall w,
     sends_only
       (fun a => exists cast, answers_cast self cast (room_of E self cast) a)
       w (snd (handleInteractions E self w))).
Proof.
  intros Hids. split.
  - intros agent cast memory thread.
    change (steps_in (sends_only (answers_cast self cast (m_roomId memory)))
              (handleCast E self agent cast memory thread)).
    pose proof (sends_refl (answers_cast self cast (m_roomId memory))) as Hr.
    pose proof (sends_trans (answers_cast self cast (m_roomId memory))) as Ht.
    pose proof (sends_event (answers_cast self cast (m_roomId memory))) as He.
    unfold handleCast, run_processActions, getMemoryById, createMemory, log.
    steps.
    all: try reflexivity.
    all: try (apply callback_sends, Hids).
    all: apply sends_same; reflexivity.
  - set (P := fun a => exists cast,
                answers_cast self cast (room_of E self cast) a).
    change (steps_in (sends_only P) (handleInteractions E self)).
    pose proof (sends_refl P) as Hr.
    pose proof (sends_trans P) as Ht.
    pose proof (sends_event P) as He.
    unfold handleInteractions, aggregate_candidates, select_casts, select_one,
      fetch_user, user_casts, record_user_casts, process_candidate, handleCast,
      run_processActions, filter_callback, client_getProfile,
      dateNow, mathRandom, getMemoryById, createMemory, log.
    steps.
    all: try reflexivity.
    all: try (eapply sends_steps_weaken;
              [|apply callback_sends, Hids];
              intros s Hs; eexists; exact Hs).
    all: apply sends_same; reflexivity.
Qed.

Lemma every_dispatch_answers_its_cast_witness :
  let E := Scenario.env [Scenario.post] [] 5000 Scenario.reply
             (Ok [Scenario.sent "0xc1" "all good here"]) in
  let self := Scenario.manager false [] in
  sends_only
    (fun a => exists cast, answers_cast self cast (room_of E self cast) a)
    Scenario.w0 (snd (handleInteractions E self Scenario.w0)).
Proof.
  cbv zeta.
  apply (every_dispatch_answers_its_cast
           (Scenario.env [Scenario.post] [] 5000 Scenario.reply
              (Ok [Scenario.sent "0xc1" "all good here"]))
           (Scenario.manager false [])).
  intros agentId h. unfold truthy. cbn [castUuid Scenario.env].
  destruct h; reflexivity.
Defined.

(** ** A cast that reached the classifier is not taken up again *)

Lemma known_only_appends E self c w w' :
  only_appends w w' -> known E self (store w) c -> known E self (store w') c.
Proof.
  intros [[added Hst] _] Hk. unfold known in *. rewrite Hst, store_lookup_app.
  destruct (store_lookup (memory_id E self c) (store w)); [discriminate|].
  contradiction Hk. reflexivity.
Qed.

Lemma after_generation_only_appends E self cast memory sr :
  steps_in only_appends (after_generation E self cast memory sr).
Proof.
  pose proof only_appends_refl as Hr.
  pose proof only_appends_trans as Ht.
  pose proof only_appends_event as He.
  destruct sr as [state rc].
  unfold after_generation, dispatch_stage, run_processActions, callback,
    createMemory, log.
  steps.
  all: try reflexivity.
  all: split;
    [first [exists []; symmetry; apply app_nil_r | eexists; reflexivity]
    |cbn; set_solver].
Qed.

(** The context stage either ends before the classifier is called or
    leaves the record of the cast in the store. *)
Lemma respond_stage_classified E self agent cast memory thread w :
  let w1 := snd (respond_stage E self agent cast memory thread w) in
  known E self (store w1) cast \/
  grows_by (fun ev => negb (is_classifier ev)) w w1.
Proof.
  unfold respond_stage, known. run_m.
  destruct (getTimeline E _ _ _) as [timeline|e]; [|right; solve_grows].
  destruct (composeState E _ _ _ _ _ _) as [state|e]; [|right; solve_grows].
  fold (memory_id E self cast).
  fold (inbound_record E self cast (m_roomId memory)).
  destruct (store_lookup (memory_id E self cast) (store w)) as [m|] eqn:Hlook;
    run_m.
  - left.
    destruct (generateShouldRespond E _ _) as [sr|e];
      [destruct (generateMessageResponse E _ _) as [g|e]|];
      cbn [snd store record_event]; rewrite Hlook; discriminate.
  - left.
    destruct (generateShouldRespond E _ _) as [sr|e];
      [destruct (generateMessageResponse E _ _) as [g|e]|];
      cbn [snd store record_event set_store];
      rewrite (store_lookup_inbound E self cast _ _ Hlook); discriminate.
Qed.

Lemma process_candidate_classified E self agent cast w :
  let w1 := snd (process_candidate E self agent cast w) in
  known E self (store w1) cast \/
  grows_by (fun ev => negb (is_classifier ev)) w w1.
Proof.
  cbv zeta. unfold process_candidate.
  set (memory := mkMemory None _ _ _ _).
  unfold bind at 1, getMemoryById. run_m.
  fold (memory_id E self cast).
  destruct (store_lookup (memory_id E self cast) (store w)) as [m|];
    [right; solve_grows|].
  destruct (ensureConnection E _ _ _ _ _ _) as [[]|e]; [|right; solve_grows].
  destruct (buildConversationThread E _ _) as [thread|e]; [|right; solve_grows].
  rewrite handleCast_stages.
  destruct (fid (profile cast) =? fid agent); [run_m; right; solve_grows|].
  destruct (negb (truthy (c_text (m_content memory))));
    [run_m; right; solve_grows|].
  unfold bind.
  match goal with
  | |- context [respond_stage E self agent cast memory thread ?x] =>
      set (w0 := x)
  end.
  assert (Hw0 : grows_by (fun ev => negb (is_classifier ev)) w w0)
    by (subst w0; solve_grows).
  pose proof (respond_stage_classified E self agent cast memory thread w0) as Hc.
  pose proof (respond_stage_spec E self agent cast memory thread w0) as Hs.
  clearbody w0. cbv zeta in Hc.
  destruct (respond_stage E self agent cast memory thread w0)
    as [[[state rc]|e] wm]; unfold snd in Hc.
  - left. destruct Hs as (_ & _ & Hfound & _).
    pose proof (after_generation_only_appends E self cast memory (state, rc) wm)
      as Ha.
    destruct (after_generation E self cast memory (state, rc) wm)
      as [[v|e] w2]; unfold snd in *;
      exact (known_only_appends E self cast wm w2 Ha Hfound).
  - destruct Hc as [Hk|Hg]; [left; exact Hk|].
    right. exact (grows_by_trans _ _ _ _ Hw0 Hg).
Qed.

(** X15.  The inbound record is written before the classifier is called,
    so a pass that got as far as the classifier leaves the cast known,
    whatever came of it: a verdict, an error of the classifier or of the
    generation, an empty reply, a dry run or a failed dispatch.  From then
    on, in every world whose store only grew, the gate ends the pass over
    that cast after its one read. *)
Theorem classified_cast_is_not_taken_up_again E self agent cast w :
  let w1 := snd (process_candidate E self agent cast w) in
  (exists ctx, In (EGenerateShouldRespond ctx) (new_events w w1)) ->
  known E self (store w1) cast /\
  forall agent2 w2,
    only_appends w1 w2 ->
    process_candidate E self agent2 cast w2 =
      (Ok tt, record_event (EGetMemoryById (memory_id E self cast)) w2).
Proof.
  cbv zeta. intros (ctx & Hin).
  assert (Hk : known E self
                 (store (snd (process_candidate E self agent cast w))) cast).
  { destruct (process_candidate_classified E self agent cast w)
      as [Hk|(evs & Htr & Hall)]; [exact Hk|].
    rewrite (new_events_grows w _ evs Htr) in Hin.
    rewrite forallb_forall in Hall. specialize (Hall _ Hin).
    discriminate Hall. }
  split; [exact Hk|].
  intros agent2 w2 Happ.
  pose proof (known_only_appends E self cast _ w2 Happ Hk) as Hk2.
  unfold known in Hk2.
  destruct (store_lookup (memory_id E self cast) (store w2)) as [m|] eqn:Hm;
    [|contradiction Hk2; reflexivity].
  exact (process_candidate_known E self agent2 cast w2 m Hm).
Qed.

Lemma classified_cast_is_not_taken_up_again_witness :
  let E := with_classifier (fun _ _ => Throw (Failure "model down"))
             (Scenario.env [] [] 5000 Scenario.reply (Ok [])) in
  let self := Scenario.manager false [] in
  let w1 := snd (process_candidate E self Scenario.agent Scenario.post
                   Scenario.w0) in
  fst (process_candidate E self Scenario.agent Scenario.post Scenario.w0)
  = Throw (Failure "model down") /\
  known E self (store w1) Scenario.post /\
  forall agent2 w2,
    only_appends w1 w2 ->
    process_candidate E self agent2 Scenario.post w2 =
      (Ok tt, record_event (EGetMemoryById (memory_id E self Scenario.post)) w2).
Proof.
  cbv zeta. split; [vm_compute; reflexivity|].
  apply (classified_cast_is_not_taken_up_again
           (with_classifier (fun _ _ => Throw (Failure "model down"))
              (Scenario.env [] [] 5000 Scenario.reply (Ok [])))
           (Scenario.manager false []) Scenario.agent Scenario.post
           Scenario.w0).
  eexists. vm_compute. left. reflexivity.
Defined.
